(** * Image extraction and browser acquisition (app/lib/extract.ts)

    A shallow embedding of [isImageUrl], [getMimeTypeFromUrl],
    [extractImagesFromURL] and [getBrowser], and the properties of the
    specification stated over it.

    Strings are modelled as [string] (sequences of 8-bit characters): the
    URLs and header values a response carries are ASCII-serialised.
    [toLowerCase] is the ASCII case mapping. *)

From Stdlib Require Import String Ascii List ZArith Lia Bool Arith.
Import ListNotations.
Open Scope string_scope.
Open Scope list_scope.

(** ** Strings as the code uses them *)

Module Str.

(** [c.toLowerCase()] on one ASCII character. *)
Definition lower_ascii (c : ascii) : ascii :=
  let n := nat_of_ascii c in
  if (65 <=? n)%nat && (n <=? 90)%nat then ascii_of_nat (n + 32) else c.

(** [s.toLowerCase()] *)
Fixpoint toLowerCase (s : string) : string :=
  match s with
  | EmptyString => EmptyString
  | String c t => String (lower_ascii c) (toLowerCase t)
  end.

(** [s.startsWith(p)] *)
Definition startsWith (s p : string) : bool := String.prefix p s.

(** [s.endsWith(e)]: the last [e.length] characters of [s] are [e]. *)
Definition endsWith (s e : string) : bool :=
  let n := String.length s in
  let m := String.length e in
  (m <=? n)%nat && String.eqb (String.substring (n - m) m s) e.

(** JS truthiness of a string: the empty string is falsy. *)
Definition truthy (s : string) : bool := negb (String.eqb s "").

End Str.

(** ** JS values the records hold *)

(** A thrown value. *)
Inductive JsError : Type := MkError (msg : string).

(** A JS number, an IEEE double: [NaN], an infinity, negative zero, an
    integer [z] (lengths, pixel dimensions, byte counts) or a finite
    non-integer [n / 2^k]. *)
Inductive JsNumber : Type :=
| JsNaN
| JsInfinity (negative : bool)
| JsNegZero
| JsNum (z : Z)
| JsFraction (n : Z) (k : positive).

(** "is a non-negative number": [x >= 0] holds. *)
Definition nonNegative (n : JsNumber) : Prop :=
  match n with
  | JsNaN => False
  | JsInfinity negative => negative = false
  | JsNegZero => True
  | JsNum z => (0 <= z)%Z
  | JsFraction n _ => (0 <= n)%Z
  end.

(** What the [size] field holds at run time: a number, or [null] once a
    number JSON cannot carry has crossed [page.evaluate]. *)
Inductive JsValue : Type :=
| JsNull
| JsNumeric (n : JsNumber).

Definition isNonNegativeNumber (v : JsValue) : Prop :=
  match v with
  | JsNull => False
  | JsNumeric n => nonNegative n
  end.

(** A number after [JSON.stringify] and [JSON.parse]: [NaN] and the
    infinities become [null], negative zero becomes [0]. *)
Definition json_number (n : JsNumber) : JsValue :=
  match n with
  | JsNaN => JsNull
  | JsInfinity _ => JsNull
  | JsNegZero => JsNumeric (JsNum 0)
  | JsNum z => JsNumeric (JsNum z)
  | JsFraction n k => JsNumeric (JsFraction n k)
  end.

Definition json_value (v : JsValue) : JsValue :=
  match v with
  | JsNull => JsNull
  | JsNumeric n => json_number n
  end.

(** The value of a decimal digit. *)
Definition digit_of_ascii (c : ascii) : option Z :=
  let n := nat_of_ascii c in
  if (48 <=? n)%nat && (n <=? 57)%nat then Some (Z.of_nat (n - 48)) else None.

Fixpoint decimal_digits_from (s : string) (acc : Z) : option Z :=
  match s with
  | EmptyString => Some acc
  | String c t =>
      match digit_of_ascii c with
      | Some d => decimal_digits_from t (10 * acc + d)%Z
      | None => None
      end
  end.

(** The integer that a non-empty string of decimal digits denotes, [None]
    for every other string. *)
Definition decimal_value (s : string) : option Z :=
  match s with
  | EmptyString => None
  | _ => decimal_digits_from s 0%Z
  end.

(** 2^53: up to it every integer is a double, so its decimal spelling
    converts to it exactly. *)
Definition MAX_EXACT_INTEGER : Z := 9007199254740992%Z.

(** ExtractImageData (~/types) *)
Record ExtractImageData : Type := mkImage {
  src : string;
  size : JsValue;
  mimeType : string;
  width : Z;
  height : Z;
  decoded : bool
}.

(** A network response as the handler reads it: [response.url()] and
    [response.headers()], an object from (lower-case) header names to
    values. *)
Record HTTPResponse : Type := mkResponse {
  url : string;
  headers : list (string * string)
}.

(** [response.headers()[name]]: [None] is [undefined]. *)
Fixpoint header (hs : list (string * string)) (name : string) : option string :=
  match hs with
  | [] => None
  | (k, v) :: rest => if String.eqb k name then Some v else header rest name
  end.

(** ** Classification *)

Definition IMAGE_EXTENSIONS : list string :=
  [".jpg"; ".jpeg"; ".png"; ".gif"; ".webp"; ".bmp"; ".ico"; ".svg"].

(** [Array.prototype.some] *)
Definition some {A : Type} (p : A -> bool) (l : list A) : bool := existsb p l.

Definition isImageUrl (url : string) : bool :=
  let urlLower := Str.toLowerCase url in
  some (fun ext => Str.endsWith urlLower ext) IMAGE_EXTENSIONS.

Definition getMimeTypeFromUrl (url : string) : option string :=
  let urlLower := Str.toLowerCase url in
  if Str.endsWith urlLower ".jpg" || Str.endsWith urlLower ".jpeg" then Some "image/jpeg"
  else if Str.endsWith urlLower ".png" then Some "image/png"
  else if Str.endsWith urlLower ".gif" then Some "image/gif"
  else if Str.endsWith urlLower ".webp" then Some "image/webp"
  else if Str.endsWith urlLower ".bmp" then Some "image/bmp"
  else if Str.endsWith urlLower ".ico" then Some "image/x-icon"
  else if Str.endsWith urlLower ".svg" then Some "image/svg+xml"
  else None.

(** [a || b] on optional strings: the first operand when it is truthy
    (neither [undefined], [null] nor the empty string), else the second. *)
Definition or_else (a : option string) (b : option string) : option string :=
  match a with
  | Some s => if Str.truthy s then Some s else b
  | None => b
  end.

(** [a || d] where the last operand is a string literal. *)
Definition or_literal (a : option string) (d : string) : string :=
  match a with
  | Some s => if Str.truthy s then s else d
  | None => d
  end.

Section Handler.

(** The language's string-to-number conversion, taken as a parameter for
    the strings [Number] below does not read itself (signs, fractions,
    exponents, other radixes, white space, integers above 2^53). *)
Variable StringToNumber : string -> JsNumber.

(** [Number(v)] for a header value: [Number(undefined)] is [NaN]; a
    non-empty string of decimal digits that denotes an integer up to 2^53
    converts to that integer; any other string goes through
    [StringToNumber]. *)
Definition Number (v : option string) : JsNumber :=
  match v with
  | None => JsNaN
  | Some s =>
      match decimal_value s with
      | Some z =>
          if (z <=? MAX_EXACT_INTEGER)%Z then JsNum z else StringToNumber s
      | None => StringToNumber s
      end
  end.

(** [contentType?.startsWith("image") || isImageUrl(responseUrl)] *)
Definition isImage (response : HTTPResponse) : bool :=
  let responseUrl := url response in
  let contentType := header (headers response) "content-type" in
  match contentType with
  | Some c => Str.startsWith c "image" || isImageUrl responseUrl
  | None => isImageUrl responseUrl
  end.

(** The record the handler pushes for a qualifying response. *)
Definition newImage (response : HTTPResponse) : ExtractImageData :=
  let responseUrl := url response in
  let contentType := header (headers response) "content-type" in
  let src := responseUrl in
  let size := Number (header (headers response) "content-length") in
  let size :=
    if Str.startsWith src "data:" then JsNum (Z.of_nat (String.length src))
    else size in
  let width := 0%Z in
  let height := 0%Z in
  {| src := src;
     size := JsNumeric size;
     mimeType :=
       or_literal (or_else contentType (getMimeTypeFromUrl responseUrl))
                  "image/unknown";
     width := width;
     height := height;
     decoded := false |}.

(** The ["response"] handler, as a function of the [images] array. *)
Definition on_response (response : HTTPResponse)
           (images : list ExtractImageData) : list ExtractImageData :=
  if isImage response then images ++ [newImage response] else images.

End Handler.

(** ** Effects: state and exceptions *)

Inductive Result (A : Type) : Type :=
| Ok (a : A)
| Throw (e : JsError).
Arguments Ok {A} a.
Arguments Throw {A} e.

(** A computation over a state [S] that returns or throws; the state
    reached is kept on both paths. *)
Definition M (S A : Type) : Type := S -> Result A * S.

Definition ret {S A : Type} (a : A) : M S A := fun s => (Ok a, s).

Definition throw {S A : Type} (e : JsError) : M S A := fun s => (Throw e, s).

Definition bind {S A B : Type} (m : M S A) (k : A -> M S B) : M S B :=
  fun s =>
    match m s with
    | (Ok a, s') => k a s'
    | (Throw e, s') => (Throw e, s')
    end.

(** [try { m } catch (e) { h e }] *)
Definition try_catch {S A : Type} (m : M S A) (h : JsError -> M S A) : M S A :=
  fun s =>
    match m s with
    | (Ok a, s') => (Ok a, s')
    | (Throw e, s') => h e s'
    end.

Definition gets {S A : Type} (f : S -> A) : M S A := fun s => (Ok (f s), s).

Definition modify {S : Type} (f : S -> S) : M S unit := fun s => (Ok tt, f s).

Declare Scope js_scope.
Delimit Scope js_scope with js.
Notation "x <- m ;; k" := (bind m (fun x => k))
  (at level 61, m at next level, right associativity) : js_scope.
Notation "m ;;; k" := (bind m (fun _ => k))
  (at level 61, right associativity) : js_scope.

(** ** The page, as the extraction call sees it *)

(** What an awaited page operation does while the caller is suspended: the
    responses the page receives in the meantime (the handler runs for each,
    in order), then the value or the error the promise settles with. *)
Record Awaited (A : Type) : Type := mkAwaited {
  arrivals : list HTTPResponse;
  outcome : Result A
}.
Arguments mkAwaited {A} arrivals outcome.
Arguments arrivals {A} a.
Arguments outcome {A} a.

(** The behaviour of one page during one call. [evaluate] is the round
    trip of [page.evaluate] (what arrives meanwhile, and whether it
    settles); the values cross it as JSON, see [evaluate_images].
    [img_decode i s] is what
    [new Image(); img.src = s; await img.decode()] does for the [i]-th
    candidate inside the page: [Some (w, h)] when the decode succeeds with
    [img.width = w] and [img.height = h], [None] when it throws. *)
Record Page : Type := mkPage {
  goto : string -> Awaited unit;
  screenshot : Awaited unit;
  evaluate : Awaited unit;
  img_decode : nat -> string -> option (Z * Z);
  close : Awaited unit
}.

Record Browser : Type := mkBrowser {
  newPage : Result Page
}.

(** Calls made on the browser and the page, in order. *)
Inductive Call : Type :=
| CallNewPage
| CallGoto (url : string)
| CallScreenshot
| CallEvaluate
| CallClose.

(** The state of one extraction call: the [images] variable and the calls
    made so far. *)
Record Extraction : Type := mkExtraction {
  images : list ExtractImageData;
  calls : list Call
}.

Definition set_images (l : list ExtractImageData) : M Extraction unit :=
  modify (fun s => {| images := l; calls := calls s |}).

Definition record_call (c : Call) : M Extraction unit :=
  modify (fun s => {| images := images s; calls := calls s ++ [c] |}).

(** [Array.prototype.findIndex]: the first index whose element satisfies
    [p], or -1. *)
Fixpoint findIndex_from {A : Type} (p : A -> bool) (l : list A) (i : Z) : Z :=
  match l with
  | [] => (-1)%Z
  | x :: t => if p x then i else findIndex_from p t (i + 1)%Z
  end.

Definition findIndex {A : Type} (p : A -> bool) (l : list A) : Z :=
  findIndex_from p l 0%Z.

(** [Array.prototype.filter] with the [(element, index, self)] callback. *)
Fixpoint filter_from {A : Type} (f : A -> Z -> list A -> bool)
         (self l : list A) (i : Z) : list A :=
  match l with
  | [] => []
  | x :: t =>
      if f x i self then x :: filter_from f self t (i + 1)%Z
      else filter_from f self t (i + 1)%Z
  end.

Definition filter_indexed {A : Type} (f : A -> Z -> list A -> bool)
           (self : list A) : list A :=
  filter_from f self self 0%Z.

(** [Array.prototype.map] with the index. *)
Fixpoint map_from {A B : Type} (f : nat -> A -> B) (l : list A) (i : nat) : list B :=
  match l with
  | [] => []
  | x :: t => f i x :: map_from f t (S i)
  end.

(** "make images unique" *)
Definition uniqueImages (images : list ExtractImageData) : list ExtractImageData :=
  filter_indexed
    (fun image index self =>
       Z.eqb index
             (findIndex
                (fun t => String.eqb (src t) (src image)
                          && String.eqb (mimeType t) (mimeType image))
                self))
    images.

(** The function evaluated inside the page for one candidate. *)
Definition decode_image (decode : nat -> string -> option (Z * Z))
           (i : nat) (image : ExtractImageData) : ExtractImageData :=
  match decode i (src image) with
  | Some (w, h) =>
      {| src := src image; size := size image; mimeType := mimeType image;
         width := w; height := h; decoded := true |}
  | None => image
  end.

(** A record after it has crossed [page.evaluate] in either direction:
    arguments and results are serialised as JSON, which carries strings,
    booleans and integers as they are and the [size] through
    [json_value]. *)
Definition json_image (image : ExtractImageData) : ExtractImageData :=
  {| src := src image; size := json_value (size image);
     mimeType := mimeType image;
     width := width image; height := height image;
     decoded := decoded image |}.

(** [page.evaluate((images) => Promise.all(images.map(...)), images)]: the
    array goes to the page as JSON, every record goes through the page
    function, and the resulting array comes back as JSON. *)
Definition evaluate_images (decode : nat -> string -> option (Z * Z))
           (images : list ExtractImageData) : list ExtractImageData :=
  map json_image (map_from (decode_image decode) (map json_image images) 0).

Section Extract.

Variable StringToNumber : string -> JsNumber.

(** The handler run on each of a sequence of responses, in order. *)
Definition deliver (responses : list HTTPResponse)
           (images : list ExtractImageData) : list ExtractImageData :=
  fold_left (fun imgs r => on_response StringToNumber r imgs) responses images.

(** [await op], with the response handler installed: the handler pushes
    onto whatever array [images] names when each response arrives. *)
Definition await {A : Type} (c : Call) (op : Awaited A) : M Extraction A :=
  (record_call c ;;;
   modify (fun s => {| images := deliver (arrivals op) (images s);
                       calls := calls s |}) ;;;
   fun s => (outcome op, s))%js.

Definition extractImagesFromURL (browser : Browser) (url : string)
  : M Extraction (list ExtractImageData) :=
  try_catch
    (set_images [] ;;;
     record_call CallNewPage ;;;
     page <- (fun s => (newPage browser, s)) ;;
     await (CallGoto url) (goto page url) ;;;
     await CallScreenshot (screenshot page) ;;;
     passed <- gets images ;;
     await CallEvaluate (evaluate page) ;;;
     set_images (evaluate_images (img_decode page) passed) ;;;
     await CallClose (close page) ;;;
     collected <- gets images ;;
     set_images (uniqueImages collected) ;;;
     gets images)%js
    (fun e => throw e).

(** A call starts with nothing collected and nothing called. *)
Definition run (browser : Browser) (url : string)
  : Result (list ExtractImageData) * list Call :=
  let (r, s) := extractImagesFromURL browser url
                  {| images := []; calls := [] |} in
  (r, calls s).

End Extract.

(** ** Browser acquisition *)

(** The [BROWSER] binding. *)
Inductive BrowserWorker : Type := Binding (name : string).

(** An entry of [puppeteer.sessions]: [connectionId] is absent for a
    session nobody is connected to. *)
Record SessionInfo : Type := mkSession {
  sessionId : string;
  connectionId : option string
}.

(** An entry of [limitsResp.activeSessions]. *)
Record ActiveSession : Type := mkActive {
  id : string
}.

Record LimitsResponse : Type := mkLimits {
  activeSessions : list ActiveSession
}.

(** What the console received. *)
Inductive ConsoleEntry : Type :=
| ConsoleLog (args : list string)
| ConsoleError (e : JsError).

(** [!connectionId] *)
Definition not_connected (c : option string) : bool :=
  match c with
  | None => true
  | Some s => negb (Str.truthy s)
  end.

Section Acquire.

(** The remote provider: any state, and operations that return or throw
    and move it. *)
Variable World : Type.

Record Provider : Type := mkProvider {
  sessions : BrowserWorker -> World -> Result (list SessionInfo) * World;
  limits : BrowserWorker -> World -> Result LimitsResponse * World;
  connect : BrowserWorker -> string -> World -> Result Browser * World;
  launch : BrowserWorker -> Z -> World -> Result Browser * World;
  connect_endpoint : string -> World -> Result Browser * World
}.

Variable puppeteer : Provider.

Record Acquisition : Type := mkAcquisition {
  world : World;
  console : list ConsoleEntry
}.

(** A provider operation, run on the current world. *)
Definition remote {A : Type} (op : World -> Result A * World) : M Acquisition A :=
  fun s =>
    let (r, w) := op (world s) in
    (r, {| world := w; console := console s |}).

Definition console_log (args : list string) : M Acquisition unit :=
  modify (fun s => {| world := world s;
                      console := console s ++ [ConsoleLog args] |}).

Definition console_error (e : JsError) : M Acquisition unit :=
  modify (fun s => {| world := world s;
                      console := console s ++ [ConsoleError e] |}).

(** [for (const sessionId of ids) { try { ...connect; break } catch { continue } }]:
    the value of [browser] after the loop, [None] when it stays
    [undefined]. *)
Fixpoint connect_each (msg : string) (BROWSER : BrowserWorker)
         (ids : list string) : M Acquisition (option Browser) :=
  match ids with
  | [] => ret None
  | sessionId :: rest =>
      (attempt <- try_catch
                    (console_log [msg; sessionId] ;;;
                     b <- remote (connect puppeteer BROWSER sessionId) ;;
                     ret (Some b))
                    (fun error => console_error error ;;; ret None) ;;
       match attempt with
       | Some b => ret (Some b)
       | None => connect_each msg BROWSER rest
       end)%js
  end.

Definition getBrowser (BROWSER : option BrowserWorker)
           (wsEndpoint : option string) : M Acquisition (option Browser) :=
  (browser <-
     match BROWSER with
     | Some BROWSER =>
         sessions_ <- remote (sessions puppeteer BROWSER) ;;
         let sessionIds :=
           map sessionId
               (filter (fun s => not_connected (connectionId s)) sessions_) in
         browser <- connect_each "Connecting to existing session: "
                                 BROWSER sessionIds ;;
         browser <-
           match browser with
           | None =>
               limitsResp <- remote (limits puppeteer BROWSER) ;;
               let activitySessionIds := map id (activeSessions limitsResp) in
               connect_each "Connecting to active session: "
                            BROWSER activitySessionIds
           | Some b => ret (Some b)
           end ;;
         match browser with
         | None =>
             try_catch
               (console_log ["Launching new browser"] ;;;
                b <- remote (launch puppeteer BROWSER 600000) ;;
                ret (Some b))
               (fun error => console_error error ;;; ret None)
         | Some b => ret (Some b)
         end
     | None => ret None
     end ;;
   match browser, wsEndpoint with
   | None, Some ws =>
       if Str.truthy ws then
         console_log ["Connecting to browser using wsEndpoint: "; ws] ;;;
         try_catch
           (b <- remote (connect_endpoint puppeteer ws) ;;
            ret (Some b))
           (fun error => console_error error ;;; ret None)
       else ret None
   | _, _ => ret browser
   end)%js.

End Acquire.

Arguments mkProvider {World}.
Arguments sessions {World} p.
Arguments limits {World} p.
Arguments connect {World} p.
Arguments launch {World} p.
Arguments connect_endpoint {World} p.
Arguments mkAcquisition {World}.
Arguments world {World} a.
Arguments console {World} a.
Arguments remote {World A} op.
Arguments console_log {World} args.
Arguments console_error {World} e.
Arguments connect_each {World} puppeteer msg BROWSER ids.
Arguments getBrowser {World} puppeteer BROWSER wsEndpoint.

(** ** Notions the properties are stated with *)

(** The responses whose records can reach the result: those received
    while navigation, the screenshot and the closing of the page are
    awaited. (Those received while the evaluation is awaited are pushed
    onto the array that [images] no longer names afterwards.) *)
Definition observed (page : Page) (url : string) : list HTTPResponse :=
  arrivals (goto page url) ++ arrivals (screenshot page) ++ arrivals (close page).

(** The [images] array when the filter runs, on a call where nothing
    throws. *)
Definition discovered (StringToNumber : string -> JsNumber)
           (page : Page) (url : string) : list ExtractImageData :=
  deliver StringToNumber (arrivals (close page))
    (evaluate_images (img_decode page)
       (deliver StringToNumber (arrivals (screenshot page))
          (deliver StringToNumber (arrivals (goto page url)) []))).

(** A record after a successful decode. *)
Definition measured (image : ExtractImageData) (w h : Z) : ExtractImageData :=
  {| src := src image; size := size image; mimeType := mimeType image;
     width := w; height := h; decoded := true |}.

(** The pair that identifies a record. *)
Definition key (image : ExtractImageData) : string * string :=
  (src image, mimeType image).

Definition same_key (image t : ExtractImageData) : bool :=
  String.eqb (src t) (src image) && String.eqb (mimeType t) (mimeType image).

(** The filter, read as a left-to-right scan that remembers what it has
    passed. *)
Fixpoint keep_first (seen l : list ExtractImageData) : list ExtractImageData :=
  match l with
  | [] => []
  | x :: t =>
      if existsb (same_key x) seen then keep_first (seen ++ [x]) t
      else x :: keep_first (seen ++ [x]) t
  end.

(** [later] keeps the order of [earlier] and drops some of its elements. *)
Inductive Subsequence {A : Type} : list A -> list A -> Prop :=
| Subsequence_nil : Subsequence [] []
| Subsequence_drop (x : A) (later earlier : list A) :
    Subsequence later earlier -> Subsequence later (x :: earlier)
| Subsequence_keep (x : A) (later earlier : list A) :
    Subsequence later earlier -> Subsequence (x :: later) (x :: earlier).

(** A response qualifies, as the handler decides it: its content-type
    starts with ["image"], or its URL, taken whole, ends with a spelling in
    any mix of cases of one of the dotted extensions. *)
Definition qualifies (response : HTTPResponse) : Prop :=
  (exists c, header (headers response) "content-type" = Some c /\
             Str.startsWith c "image" = true) \/
  (exists p t ext, url response = (p ++ t)%string /\
                   In ext IMAGE_EXTENSIONS /\ Str.toLowerCase t = ext).

(** *** The classification as the specification words it *)

(** The path of a URL: the URL up to its query string or fragment. *)
Fixpoint url_path (u : string) : string :=
  match u with
  | EmptyString => EmptyString
  | String c t =>
      if Ascii.eqb c "?"%char || Ascii.eqb c "#"%char then EmptyString
      else String c (url_path t)
  end.

Definition recognized_extensions : list string :=
  ["jpg"; "jpeg"; "png"; "gif"; "webp"; "bmp"; "ico"; "svg"].

(** "the response URL's path suffix matches a known image extension
    (case-insensitive)" *)
Definition path_suffix_matches (u : string) : bool :=
  existsb (fun ext => Str.endsWith (Str.toLowerCase (url_path u))
                                   ("." ++ ext)%string)
          recognized_extensions.

(** "true if the content-type header starts with "image", OR the response
    URL's path suffix matches a known image extension" *)
Definition isImage_by_path (response : HTTPResponse) : bool :=
  match header (headers response) "content-type" with
  | Some c => Str.startsWith c "image" || path_suffix_matches (url response)
  | None => path_suffix_matches (url response)
  end.

(** ** Concrete runs *)

Module Examples.

Definition digit_value (c : ascii) : option Z :=
  let n := nat_of_ascii c in
  if (48 <=? n)%nat && (n <=? 57)%nat then Some (Z.of_nat (n - 48)) else None.

Fixpoint digits_value (s : string) (acc : Z) : option Z :=
  match s with
  | EmptyString => Some acc
  | String c t =>
      match digit_value c with
      | Some d => digits_value t (10 * acc + d)%Z
      | None => None
      end
  end.

(** [Number(s)] on the header values the examples carry: strings of
    decimal digits. (Other numeric literals of the language are not
    read here; no example carries one.) *)
Definition decimalToNumber (s : string) : JsNumber :=
  match digits_value s 0%Z with
  | Some z => JsNum z
  | None => JsNaN
  end.

(** An awaited operation during which nothing arrives and which
    succeeds. *)
Definition quiet : Awaited unit := mkAwaited [] (Ok tt).

Definition during (rs : list HTTPResponse) : Awaited unit := mkAwaited rs (Ok tt).

Definition failing (e : JsError) : Awaited unit := mkAwaited [] (Throw e).

(** A page that receives [rs] while navigating, and decodes the
    candidates at the indices in [ok] as 4 by 3 images. *)
Definition page_receiving (rs : list HTTPResponse) (ok : list nat) : Page :=
  {| goto := fun _ => during rs;
     screenshot := quiet;
     evaluate := quiet;
     img_decode := fun i _ => if existsb (Nat.eqb i) ok then Some (4, 3)%Z else None;
     close := quiet |}.

Definition browser_receiving (rs : list HTTPResponse) (ok : list nat) : Browser :=
  {| newPage := Ok (page_receiving rs ok) |}.

Definition net_error : JsError := MkError "net::ERR_NAME_NOT_RESOLVED".

(** A page whose navigation fails. *)
Definition page_unreachable : Page :=
  {| goto := fun _ => failing net_error;
     screenshot := quiet;
     evaluate := quiet;
     img_decode := fun _ _ => None;
     close := quiet |}.

Definition png : HTTPResponse :=
  mkResponse "https://example.com/a.png"
             [("content-type", "image/png"); ("content-length", "10")].

Definition gif_bare : HTTPResponse :=
  mkResponse "https://example.com/b.gif" [].

Definition png_chunked : HTTPResponse :=
  mkResponse "https://example.com/a.png" [("content-type", "image/png")].

Definition png_versioned : HTTPResponse :=
  mkResponse "https://example.com/logo.png?v=2" [].

Definition gif_empty_type : HTTPResponse :=
  mkResponse "https://example.com/b.gif" [("content-type", "")].

Definition html_named_png : HTTPResponse :=
  mkResponse "https://example.com/view/photo.PNG"
             [("content-type", "text/html"); ("content-length", "512")].

Definition data_png : HTTPResponse :=
  mkResponse "data:image/png;base64,AAAA" [("content-type", "image/png")].

Definition home : string := "https://example.com/".

End Examples.

(** ** Concrete providers *)

Module AcquireExamples.

Definition BROWSER : BrowserWorker := Binding "BROWSER".

Definition stale (sessionId : string) : JsError :=
  MkError ("session is gone: " ++ sessionId)%string.

Definition unavailable : JsError := MkError "503 Service Unavailable".

Definition handle : Browser := Examples.browser_receiving [] [].

(** A provider whose world counts the remote calls made. It lists four
    sessions, one of them connected; attaching works for session ["c"]
    only; nothing can be launched. *)
Definition pool : Provider nat :=
  {| sessions := fun _ w =>
       (Ok [mkSession "a" None; mkSession "busy" (Some "conn-1");
            mkSession "b" (Some ""); mkSession "c" None], S w);
     limits := fun _ w => (Ok (mkLimits [mkActive "busy"]), S w);
     connect := fun _ sessionId w =>
       if String.eqb sessionId "c" then (Ok handle, S w)
       else (Throw (stale sessionId), S w);
     launch := fun _ _ w => (Throw unavailable, S w);
     connect_endpoint := fun _ w => (Ok handle, S w) |}.

(** A provider whose session listing fails; a direct connection would
    succeed. *)
Definition pool_down : Provider nat :=
  {| sessions := fun _ w => (Throw unavailable, S w);
     limits := fun _ w => (Throw unavailable, S w);
     connect := fun _ _ w => (Throw unavailable, S w);
     launch := fun _ _ w => (Throw unavailable, S w);
     connect_endpoint := fun _ w => (Ok handle, S w) |}.

Definition start : Acquisition nat := {| world := 0; console := [] |}.

End AcquireExamples.

(** ** Notions for the further properties *)

(** The extensions [getMimeTypeFromUrl] tests, in its order, each with the
    type it answers. *)
Definition mime_table : list (string * string) :=
  [(".jpg", "image/jpeg"); (".jpeg", "image/jpeg"); (".png", "image/png");
   (".gif", "image/gif"); (".webp", "image/webp"); (".bmp", "image/bmp");
   (".ico", "image/x-icon"); (".svg", "image/svg+xml")].

(** The calls of a call in which nothing throws. *)
Definition full_trace (url_ : string) : list Call :=
  [CallNewPage; CallGoto url_; CallScreenshot; CallEvaluate; CallClose].

(** The ids [getBrowser] tries first: sessions nobody is connected to. *)
Definition idle_ids (listed : list SessionInfo) : list string :=
  map sessionId (filter (fun s => not_connected (connectionId s)) listed).

(** The ids [getBrowser] tries next. *)
Definition active_ids (limitsResp : LimitsResponse) : list string :=
  map id (activeSessions limitsResp).

(** Attaching to each of [ids] in turn with every attempt throwing: the
    world reached, or [None] as soon as one attempt succeeds. *)
Fixpoint fail_in_turn {World : Type} (puppeteer : Provider World)
         (B : BrowserWorker) (ids : list string) (w : World) : option World :=
  match ids with
  | [] => Some w
  | i :: rest =>
      match connect puppeteer B i w with
      | (Throw _, w') => fail_in_turn puppeteer B rest w'
      | (Ok _, _) => None
      end
  end.

(** What the attach loop writes to the console while every attempt on
    [ids] throws: for each id in turn the attempt, then the error it
    threw. *)
Fixpoint failed_attach_log {World : Type} (puppeteer : Provider World)
         (msg : string) (B : BrowserWorker) (ids : list string) (w : World)
  : list ConsoleEntry :=
  match ids with
  | [] => []
  | i :: rest =>
      match connect puppeteer B i w with
      | (Throw e, w') =>
          ConsoleLog [msg; i] :: ConsoleError e
            :: failed_attach_log puppeteer msg B rest w'
      | (Ok _, _) => []
      end
  end.

(** The end of [getBrowser], reached with [browser] still [undefined]:
    the direct connection, when an endpoint is given. *)
Definition direct_connect {World : Type} (puppeteer : Provider World)
           (wsEndpoint : option string) (st : Acquisition World)
  : Result (option Browser) * Acquisition World :=
  match wsEndpoint with
  | Some ws =>
      if Str.truthy ws then
        match connect_endpoint puppeteer ws (world st) with
        | (Ok b, w) =>
            (Ok (Some b),
             {| world := w;
                console := console st ++
                  [ConsoleLog ["Connecting to browser using wsEndpoint: "; ws]] |})
        | (Throw e, w) =>
            (Ok None,
             {| world := w;
                console := console st ++
                  [ConsoleLog ["Connecting to browser using wsEndpoint: "; ws];
                   ConsoleError e] |})
        end
      else (Ok None, st)
  | None => (Ok None, st)
  end.

(** The pool gives no handle: the listing returns, attaching fails for
    every idle session, the limits query returns, attaching fails for every
    active session, and the launch throws; [w'] is the world after the
    launch. *)
Definition pool_exhausted {World : Type} (puppeteer : Provider World)
           (B : BrowserWorker) (w w' : World) : Prop :=
  exists listed w1 w2 limitsResp w3 w4 e,
    sessions puppeteer B w = (Ok listed, w1) /\
    fail_in_turn puppeteer B (idle_ids listed) w1 = Some w2 /\
    limits puppeteer B w2 = (Ok limitsResp, w3) /\
    fail_in_turn puppeteer B (active_ids limitsResp) w3 = Some w4 /\
    launch puppeteer B 600000 w4 = (Throw e, w').

(** ** More providers *)

Module Providers.

Definition BROWSER : BrowserWorker := Binding "BROWSER".

Definition handle : Browser := Examples.browser_receiving [] [].

Definition refused : JsError := MkError "connection refused".

Definition quota : JsError := MkError "429 Too Many Requests".

(** One idle session that is gone, one active session that accepts a
    second connection. *)
Definition busy_only : Provider nat :=
  {| sessions := fun _ w =>
       (Ok [mkSession "a" None; mkSession "busy" (Some "conn-1")], S w);
     limits := fun _ w => (Ok (mkLimits [mkActive "gone"; mkActive "busy"]), S w);
     connect := fun _ sessionId w =>
       if String.eqb sessionId "busy" then (Ok handle, S w)
       else (Throw refused, S w);
     launch := fun _ _ w => (Throw quota, S w);
     connect_endpoint := fun _ w => (Throw refused, S w) |}.

(** No session at all; launching works, with the keep-alive asked for
    only. *)
Definition fresh : Provider nat :=
  {| sessions := fun _ w => (Ok [], S w);
     limits := fun _ w => (Ok (mkLimits []), S w);
     connect := fun _ _ w => (Throw refused, S w);
     launch := fun _ keep_alive w =>
       if Z.eqb keep_alive 600000 then (Ok handle, S w) else (Throw quota, S w);
     connect_endpoint := fun _ w => (Throw refused, S w) |}.

(** Sessions are listed but none can be attached to and nothing can be
    launched; [direct] says whether the direct endpoint answers. *)
Definition exhausted (direct : bool) : Provider nat :=
  {| sessions := fun _ w =>
       (Ok [mkSession "a" None; mkSession "busy" (Some "conn-1")], S w);
     limits := fun _ w => (Ok (mkLimits [mkActive "busy"]), S w);
     connect := fun _ _ w => (Throw refused, S w);
     launch := fun _ _ w => (Throw quota, S w);
     connect_endpoint := fun _ w =>
       if direct then (Ok handle, S w) else (Throw refused, S w) |}.

(** The session listing works and the limits query fails. *)
Definition limits_down : Provider nat :=
  {| sessions := fun _ w => (Ok [mkSession "a" None], S w);
     limits := fun _ w => (Throw quota, S w);
     connect := fun _ _ w => (Throw refused, S w);
     launch := fun _ _ w => (Ok handle, S w);
     connect_endpoint := fun _ w => (Ok handle, S w) |}.

Definition start : Acquisition nat := {| world := 0; console := [] |}.

Definition endpoint : string := "ws://localhost:3000".

End Providers.

(** ** More pages *)

Module Pages.

(** [page] with other responses arriving while [evaluate] is awaited. *)
Definition with_evaluate_arrivals (page : Page) (rs : list HTTPResponse) : Page :=
  {| goto := goto page;
     screenshot := screenshot page;
     evaluate := mkAwaited rs (outcome (evaluate page));
     img_decode := img_decode page;
     close := close page |}.

Definition crashed : JsError := MkError "Target closed".

(** A page that receives [rs] while navigating and whose evaluation
    throws. *)
Definition evaluate_fails (rs : list HTTPResponse) : Page :=
  {| goto := fun _ => Examples.during rs;
     screenshot := Examples.quiet;
     evaluate := Examples.failing crashed;
     img_decode := fun _ _ => None;
     close := Examples.quiet |}.

(** A page that receives [rs] while navigating and whose closing throws. *)
Definition close_fails (rs : list HTTPResponse) : Page :=
  {| goto := fun _ => Examples.during rs;
     screenshot := Examples.quiet;
     evaluate := Examples.quiet;
     img_decode := fun _ _ => None;
     close := Examples.failing crashed |}.

Definition html : HTTPResponse :=
  mkResponse "https://example.com/" [("content-type", "text/html")].

Definition script : HTTPResponse :=
  mkResponse "https://example.com/app.js?v=.png2"
             [("content-type", "application/javascript")].

Definition late_jpeg : HTTPResponse :=
  mkResponse "https://example.com/late.JPEG" [].

End Pages.

(** A computation that returns from every state: it never throws. *)
Definition returns {S A : Type} (m : M S A) : Prop :=
  forall s, exists a s', m s = (Ok a, s').

(** * Properties *)

(** ** Computations that cannot throw *)

Lemma returns_ret {S A : Type} (a : A) : returns (@ret S A a).
Proof. intros s. exists a, s. reflexivity. Qed.

Lemma returns_modify {S : Type} (f : S -> S) : returns (modify f).
Proof. intros s. exists tt, (f s). reflexivity. Qed.

Lemma returns_bind {S A B : Type} (m : M S A) (k : A -> M S B) :
  returns m -> (forall a, returns (k a)) -> returns (bind m k).
Proof.
  intros Hm Hk s. unfold bind. destruct (Hm s) as (a & s' & ->). apply Hk.
Qed.

(** A [try] whose handler cannot throw cannot throw. *)
Lemma returns_try_catch {S A : Type} (m : M S A) (h : JsError -> M S A) :
  (forall e, returns (h e)) -> returns (try_catch m h).
Proof.
  intros Hh s. unfold try_catch. destruct (m s) as [[a|e] s'].
  - exists a, s'. reflexivity.
  - apply Hh.
Qed.

(** ** Deduplication *)

Lemma same_key_iff (image t : ExtractImageData) :
  same_key image t = true <-> key t = key image.
Proof.
  unfold same_key, key. rewrite andb_true_iff, !String.eqb_eq.
  split; [intros [-> ->]; reflexivity | intros H; inversion H; auto].
Qed.

Lemma same_key_refl (image : ExtractImageData) : same_key image image = true.
Proof. apply same_key_iff. reflexivity. Qed.

Lemma findIndex_from_shift {A : Type} (p : A -> bool) (l : list A) (i : Z) :
  findIndex_from p l i =
  if existsb p l then (i + findIndex_from p l 0)%Z else (-1)%Z.
Proof.
  revert i. induction l as [|x t IH]; intros i; simpl; [reflexivity|].
  destruct (p x); simpl; [lia|].
  rewrite (IH (i + 1)%Z), (IH 1%Z). destruct (existsb p t); lia.
Qed.

Lemma findIndex_from_range {A : Type} (p : A -> bool) (l : list A) (i : Z) :
  existsb p l = true ->
  (i <= findIndex_from p l i < i + Z.of_nat (length l))%Z.
Proof.
  revert i. induction l as [|x t IH]; intros i; simpl; [discriminate|].
  destruct (p x); simpl; [lia|]. intros H. specialize (IH (i + 1)%Z H). lia.
Qed.

(** Where [findIndex] lands in [pre ++ x :: post] when [x] satisfies [p]:
    on [x] exactly when nothing in [pre] does. *)
Lemma findIndex_app_hit {A : Type} (p : A -> bool) (pre post : list A) (x : A) :
  p x = true ->
  Z.eqb (Z.of_nat (length pre)) (findIndex p (pre ++ x :: post))
  = negb (existsb p pre).
Proof.
  intros Hx. unfold findIndex.
  assert (G : forall i, findIndex_from p (pre ++ x :: post) i
              = if existsb p pre then findIndex_from p pre i
                else (i + Z.of_nat (length pre))%Z).
  { induction pre as [|y t IH]; intros i; simpl.
    - rewrite Hx. lia.
    - destruct (p y); simpl; [reflexivity|]. rewrite IH.
      destruct (existsb p t); [reflexivity | lia]. }
  rewrite (G 0%Z). destruct (existsb p pre) eqn:E; simpl.
  - apply Z.eqb_neq. pose proof (findIndex_from_range p pre 0%Z E). lia.
  - apply Z.eqb_eq. lia.
Qed.

Lemma filter_from_keep_first (pre l : list ExtractImageData) :
  filter_from
    (fun image index self =>
       Z.eqb index
             (findIndex
                (fun t => String.eqb (src t) (src image)
                          && String.eqb (mimeType t) (mimeType image))
                self))
    (pre ++ l) l (Z.of_nat (length pre))
  = keep_first pre l.
Proof.
  revert pre. induction l as [|x t IH]; intros pre; simpl; [reflexivity|].
  change (fun t0 : ExtractImageData =>
            String.eqb (src t0) (src x) && String.eqb (mimeType t0) (mimeType x))
    with (same_key x).
  rewrite (findIndex_app_hit (same_key x) pre t x (same_key_refl x)).
  specialize (IH (pre ++ [x])).
  rewrite <- app_assoc in IH. simpl in IH.
  rewrite length_app in IH. simpl in IH.
  replace (Z.of_nat (length pre + 1)) with (Z.of_nat (length pre) + 1)%Z in IH by lia.
  rewrite IH. destruct (existsb (same_key x) pre); reflexivity.
Qed.

Lemma uniqueImages_keep_first (l : list ExtractImageData) :
  uniqueImages l = keep_first [] l.
Proof.
  unfold uniqueImages, filter_indexed.
  exact (filter_from_keep_first [] l).
Qed.

Lemma existsb_same_key_false (x : ExtractImageData) (seen : list ExtractImageData) :
  existsb (same_key x) seen = false <->
  (forall y, In y seen -> key y <> key x).
Proof.
  split.
  - intros H y Hy Hk.
    assert (existsb (same_key x) seen = true); [|congruence].
    apply existsb_exists. exists y. split; [assumption|].
    apply same_key_iff; assumption.
  - intros H. destruct (existsb (same_key x) seen) eqn:E; [|reflexivity].
    apply existsb_exists in E. destruct E as (y & Hy & Hs).
    apply same_key_iff in Hs. exfalso. exact (H y Hy Hs).
Qed.

(** Every kept record is the first of its key: nothing before it in the
    scanned list, nor in what was already seen, has its key. *)
Lemma keep_first_first (seen l : list ExtractImageData) (r : ExtractImageData) :
  In r (keep_first seen l) ->
  exists l1 l2, l = l1 ++ r :: l2 /\
                (forall y, In y (seen ++ l1) -> key y <> key r).
Proof.
  revert seen. induction l as [|x t IH]; intros seen; simpl; [tauto|].
  destruct (existsb (same_key x) seen) eqn:E; simpl.
  - intros H. destruct (IH _ H) as (l1 & l2 & -> & Hn).
    exists (x :: l1), l2. split; [reflexivity|].
    intros y Hy. apply Hn. rewrite <- app_assoc. exact Hy.
  - intros [-> | H].
    + exists [], t. split; [reflexivity|]. rewrite app_nil_r.
      apply existsb_same_key_false. exact E.
    + destruct (IH _ H) as (l1 & l2 & -> & Hn).
      exists (x :: l1), l2. split; [reflexivity|].
      intros y Hy. apply Hn. rewrite <- app_assoc. exact Hy.
Qed.

Lemma keep_first_NoDup (seen l : list ExtractImageData) :
  NoDup (map key (keep_first seen l)).
Proof.
  revert seen. induction l as [|x t IH]; intros seen; simpl; [constructor|].
  destruct (existsb (same_key x) seen); [apply IH|].
  simpl. constructor; [|apply IH].
  intros Hin. apply in_map_iff in Hin. destruct Hin as (r & Hk & Hr).
  destruct (keep_first_first _ _ _ Hr) as (l1 & l2 & _ & Hn).
  apply (Hn x); [|congruence].
  apply in_or_app. left. apply in_or_app. right. left. reflexivity.
Qed.

(** Every key of the scanned list survives, unless it was seen before. *)
Lemma keep_first_complete (seen l : list ExtractImageData) (x : ExtractImageData) :
  In x l ->
  (exists r, In r (keep_first seen l) /\ key r = key x) \/
  (exists y, In y seen /\ key y = key x).
Proof.
  revert seen. induction l as [|z t IH]; intros seen; simpl; [tauto|].
  intros [-> | Hx].
  - destruct (existsb (same_key x) seen) eqn:E.
    + right. apply existsb_exists in E. destruct E as (y & Hy & Hs).
      exists y. split; [assumption | apply same_key_iff; assumption].
    + left. exists x. split; [left; reflexivity | reflexivity].
  - destruct (IH (seen ++ [z]) Hx) as [(r & Hr & Hk) | (y & Hy & Hk)].
    + left. exists r. split; [|assumption].
      destruct (existsb (same_key z) seen); [assumption | right; assumption].
    + apply in_app_or in Hy. destruct Hy as [Hy | [<- | []]].
      * right. exists y. split; assumption.
      * destruct (existsb (same_key z) seen) eqn:E.
        -- right. apply existsb_exists in E. destruct E as (y' & Hy' & Hs).
           exists y'. split; [assumption|].
           apply same_key_iff in Hs. congruence.
        -- left. exists z. split; [left; reflexivity | assumption].
Qed.

(** ** The shape of a call *)

(** What [extractImagesFromURL] returns and which calls it makes, by the
    first operation that fails. *)
Lemma run_cases (StringToNumber : string -> JsNumber) (browser : Browser)
      (url : string) :
  run StringToNumber browser url =
  match newPage browser with
  | Throw e => (Throw e, [CallNewPage])
  | Ok page =>
      match outcome (goto page url) with
      | Throw e => (Throw e, [CallNewPage; CallGoto url])
      | Ok _ =>
          match outcome (screenshot page) with
          | Throw e => (Throw e, [CallNewPage; CallGoto url; CallScreenshot])
          | Ok _ =>
              match outcome (evaluate page) with
              | Throw e =>
                  (Throw e, [CallNewPage; CallGoto url; CallScreenshot; CallEvaluate])
              | Ok _ =>
                  match outcome (close page) with
                  | Throw e =>
                      (Throw e, [CallNewPage; CallGoto url; CallScreenshot;
                                 CallEvaluate; CallClose])
                  | Ok _ =>
                      (Ok (uniqueImages (discovered StringToNumber page url)),
                       [CallNewPage; CallGoto url; CallScreenshot;
                        CallEvaluate; CallClose])
                  end
              end
          end
      end
  end.
Proof.
  unfold run, extractImagesFromURL, try_catch, bind, await, set_images,
    record_call, modify, gets, throw, discovered.
  simpl.
  destruct (newPage browser) as [page|e]; simpl; [|reflexivity].
  destruct (outcome (goto page url)) as [[]|e]; simpl; [|reflexivity].
  destruct (outcome (screenshot page)) as [[]|e]; simpl; [|reflexivity].
  destruct (outcome (evaluate page)) as [[]|e]; simpl; [|reflexivity].
  destruct (outcome (close page)) as [[]|e]; simpl; reflexivity.
Qed.

Lemma run_ok (StringToNumber : string -> JsNumber) (browser : Browser)
      (url : string) (result : list ExtractImageData) (cs : list Call) :
  run StringToNumber browser url = (Ok result, cs) ->
  exists page, newPage browser = Ok page /\
               result = uniqueImages (discovered StringToNumber page url).
Proof.
  rewrite run_cases.
  destruct (newPage browser) as [page|e]; [|discriminate].
  destruct (outcome (goto page url)) as [[]|e]; [|discriminate].
  destruct (outcome (screenshot page)) as [[]|e]; [|discriminate].
  destruct (outcome (evaluate page)) as [[]|e]; [|discriminate].
  destruct (outcome (close page)) as [[]|e]; [|discriminate].
  intros H. inversion H. exists page. split; reflexivity.
Qed.

(** ** Where records come from *)

Lemma in_deliver (StringToNumber : string -> JsNumber)
      (rs : list HTTPResponse) (imgs : list ExtractImageData)
      (rec : ExtractImageData) :
  In rec (deliver StringToNumber rs imgs) <->
  In rec imgs \/
  exists r, In r rs /\ isImage r = true /\ rec = newImage StringToNumber r.
Proof.
  unfold deliver. revert imgs. induction rs as [|r rs IH]; intros imgs; simpl.
  - split; [auto | intros [H | (r & [] & _)]; exact H].
  - rewrite IH. unfold on_response. destruct (isImage r) eqn:E.
    + rewrite in_app_iff. simpl. split.
      * intros [[H | [<- | []]] | (r' & Hr' & Hi & ->)].
        -- left; exact H.
        -- right. exists r. auto.
        -- right. exists r'. auto.
      * intros [H | (r' & [<- | Hr'] & Hi & ->)].
        -- left; left; exact H.
        -- left; right; left; reflexivity.
        -- right. exists r'. auto.
    + split.
      * intros [H | (r' & Hr' & Hi & ->)]; [left; exact H|].
        right. exists r'. auto.
      * intros [H | (r' & [<- | Hr'] & Hi & ->)]; [left; exact H | congruence |].
        right. exists r'. auto.
Qed.

Lemma in_map_from {A B : Type} (f : nat -> A -> B) (l : list A) (i : nat) (y : B) :
  In y (map_from f l i) -> exists j x, In x l /\ y = f j x.
Proof.
  revert i. induction l as [|x t IH]; intros i; simpl; [tauto|].
  intros [<- | H].
  - exists i, x. auto.
  - destruct (IH _ H) as (j & x' & Hx' & ->). exists j, x'. auto.
Qed.

Lemma in_uniqueImages (l : list ExtractImageData) (rec : ExtractImageData) :
  In rec (uniqueImages l) -> In rec l.
Proof.
  rewrite uniqueImages_keep_first. intros H.
  destruct (keep_first_first _ _ _ H) as (l1 & l2 & -> & _).
  apply in_or_app. right. left. reflexivity.
Qed.

(** ** Crossing [page.evaluate] *)

Lemma json_value_idempotent (v : JsValue) :
  json_value (json_value v) = json_value v.
Proof. destruct v as [|[]]; reflexivity. Qed.

Lemma json_image_idempotent (image : ExtractImageData) :
  json_image (json_image image) = json_image image.
Proof.
  unfold json_image. simpl. rewrite json_value_idempotent. reflexivity.
Qed.

(** What comes back for one record: the record as JSON carried it, with
    the dimensions of a successful decode. *)
Lemma evaluate_one (decode : nat -> string -> option (Z * Z)) (j : nat)
      (x : ExtractImageData) :
  json_image (decode_image decode j (json_image x))
  = match decode j (src x) with
    | Some (w, h) => measured (json_image x) w h
    | None => json_image x
    end.
Proof.
  unfold decode_image. simpl.
  destruct (decode j (src x)) as [[w h]|].
  - unfold json_image, measured. simpl. rewrite json_value_idempotent.
    reflexivity.
  - apply json_image_idempotent.
Qed.

Lemma in_evaluate_images (decode : nat -> string -> option (Z * Z))
      (l : list ExtractImageData) (y : ExtractImageData) :
  In y (evaluate_images decode l) ->
  exists j x, In x l /\ y = json_image (decode_image decode j (json_image x)).
Proof.
  unfold evaluate_images. intros H.
  apply in_map_iff in H. destruct H as (z & <- & Hz).
  apply in_map_from in Hz. destruct Hz as (j & x' & Hx' & ->).
  apply in_map_iff in Hx'. destruct Hx' as (x & <- & Hx).
  exists j, x. split; [exact Hx | reflexivity].
Qed.

(** Every record the filter sees is the record the handler built for an
    observed, qualifying response: as built, when the response arrived
    while [close] was awaited; as JSON carried it, with the dimensions a
    successful decode wrote into it, when it arrived before the
    evaluation. *)
Lemma discovered_provenance (StringToNumber : string -> JsNumber)
      (page : Page) (url_ : string) (rec : ExtractImageData) :
  In rec (discovered StringToNumber page url_) ->
  exists r, In r (observed page url_) /\ isImage r = true /\
            ((In r (arrivals (goto page url_) ++ arrivals (screenshot page)) /\
              (rec = json_image (newImage StringToNumber r) \/
               exists w h,
                 rec = measured (json_image (newImage StringToNumber r)) w h)) \/
             (In r (arrivals (close page)) /\
              rec = newImage StringToNumber r)).
Proof.
  unfold discovered, observed. intros H.
  apply in_deliver in H. destruct H as [H | (r & Hr & Hi & ->)].
  - apply in_evaluate_images in H. destruct H as (j & x & Hx & ->).
    assert (Hsrc : exists r, In r (arrivals (goto page url_) ++ arrivals (screenshot page))
                             /\ isImage r = true /\ x = newImage StringToNumber r).
    { apply in_deliver in Hx. destruct Hx as [Hx | (r & Hr & Hi & ->)].
      - apply in_deliver in Hx. destruct Hx as [[] | (r & Hr & Hi & ->)].
        exists r. rewrite in_app_iff. auto.
      - exists r. rewrite in_app_iff. auto. }
    destruct Hsrc as (r & Hr & Hi & ->). exists r.
    split; [rewrite app_assoc, in_app_iff; left; exact Hr|].
    split; [exact Hi|]. left. split; [exact Hr|].
    rewrite evaluate_one.
    destruct (img_decode page j (src (newImage StringToNumber r))) as [[w h]|].
    + right. exists w, h. reflexivity.
    + left. reflexivity.
  - exists r. split; [rewrite !in_app_iff; auto|]. split; [exact Hi|].
    right. split; [exact Hr | reflexivity].
Qed.

(** ** Facts about the string operations *)

Module StrFacts.
Import Str.

Lemma length_app (p e : string) :
  String.length (p ++ e)%string = String.length p + String.length e.
Proof. induction p as [|c p IH]; simpl; [reflexivity | now rewrite IH]. Qed.

Lemma app_assoc (a b c : string) :
  ((a ++ b) ++ c)%string = (a ++ (b ++ c))%string.
Proof. induction a as [|x a IH]; simpl; [reflexivity | now rewrite IH]. Qed.

Lemma substring_all (s : string) : substring 0 (String.length s) s = s.
Proof. induction s as [|c s IH]; simpl; [reflexivity | now rewrite IH]. Qed.

Lemma substring_skip (p e : string) (m : nat) :
  substring (String.length p) m (p ++ e)%string = substring 0 m e.
Proof. induction p as [|c p IH]; simpl; [reflexivity | exact IH]. Qed.

(** A string is its first [k] characters followed by the rest. *)
Lemma substring_split (s : string) (k : nat) :
  k <= String.length s ->
  s = (substring 0 k s ++ substring k (String.length s - k) s)%string.
Proof.
  revert k. induction s as [|c s IH]; intros k Hk; simpl in *.
  - destruct k; [reflexivity | lia].
  - destruct k as [|k]; simpl.
    + now rewrite substring_all.
    + f_equal. apply IH. lia.
Qed.

Lemma endsWith_app (p e : string) : endsWith (p ++ e)%string e = true.
Proof.
  unfold endsWith. rewrite length_app.
  replace (String.length p + String.length e - String.length e)
    with (String.length p) by lia.
  rewrite substring_skip, substring_all, String.eqb_refl.
  rewrite andb_true_r. apply Nat.leb_le. lia.
Qed.

(** [s.endsWith(e)] holds exactly when [s] is something followed by [e]. *)
Lemma endsWith_iff (s e : string) :
  endsWith s e = true <-> exists p, s = (p ++ e)%string.
Proof.
  split.
  - unfold endsWith. rewrite andb_true_iff, Nat.leb_le, String.eqb_eq.
    intros [Hle He]. remember (String.length e) as m eqn:Hm. clear Hm.
    subst e. exists (substring 0 (String.length s - m) s).
    pose proof (substring_split s (String.length s - m)) as Hs.
    replace (String.length s - (String.length s - m)) with m in Hs by lia.
    apply Hs. lia.
  - intros [p ->]. apply endsWith_app.
Qed.

Lemma endsWith_length (s e : string) :
  endsWith s e = true -> String.length e <= String.length s.
Proof. unfold endsWith. rewrite andb_true_iff, Nat.leb_le. tauto. Qed.

(** Two endings of the same length are the same string. *)
Lemma endsWith_same_length (s e e' : string) :
  endsWith s e = true -> endsWith s e' = true ->
  String.length e = String.length e' -> e = e'.
Proof.
  unfold endsWith. rewrite !andb_true_iff, !String.eqb_eq.
  intros [_ H1] [_ H2] Hl. rewrite <- H1, Hl. exact H2.
Qed.

(** An ending of an ending is an ending. *)
Lemma endsWith_tail (s a b : string) :
  endsWith s (a ++ b)%string = true -> endsWith s b = true.
Proof.
  intros H. apply endsWith_iff in H. destruct H as [p ->].
  rewrite <- app_assoc. apply endsWith_app.
Qed.

Lemma toLowerCase_length (s : string) :
  String.length (toLowerCase s) = String.length s.
Proof. induction s as [|c s IH]; simpl; [reflexivity | now rewrite IH]. Qed.

Lemma toLowerCase_app (a b : string) :
  toLowerCase (a ++ b)%string = (toLowerCase a ++ toLowerCase b)%string.
Proof. induction a as [|c a IH]; simpl; [reflexivity | now rewrite IH]. Qed.

Lemma toLowerCase_substring (s : string) (n m : nat) :
  toLowerCase (substring n m s) = substring n m (toLowerCase s).
Proof.
  revert n m. induction s as [|c s IH]; intros n m; simpl.
  - destruct n, m; reflexivity.
  - destruct n as [|n]; [destruct m as [|m]|]; simpl;
      [reflexivity | now rewrite IH | apply IH].
Qed.

(** The lower-cased string ends with [e] exactly when the string ends
    with some spelling of [e], in any mix of cases. *)
Lemma endsWith_lower_iff (s e : string) :
  endsWith (toLowerCase s) e = true <->
  exists p t, s = (p ++ t)%string /\ toLowerCase t = e.
Proof.
  split.
  - intros H. pose proof (endsWith_length _ _ H) as Hle.
    rewrite toLowerCase_length in Hle.
    unfold endsWith in H. rewrite andb_true_iff, String.eqb_eq in H.
    destruct H as [_ He]. rewrite toLowerCase_length in He.
    remember (String.length e) as m eqn:Hm. clear Hm.
    exists (substring 0 (String.length s - m) s),
           (substring (String.length s - m) m s).
    split.
    + pose proof (substring_split s (String.length s - m)) as Hs.
      replace (String.length s - (String.length s - m)) with m in Hs by lia.
      apply Hs. lia.
    + rewrite toLowerCase_substring. exact He.
  - intros (p & t & -> & <-). rewrite toLowerCase_app. apply endsWith_app.
Qed.

Lemma endsWith_lower (s e : string) :
  endsWith s e = true -> endsWith (toLowerCase s) (toLowerCase e) = true.
Proof.
  intros H. apply endsWith_iff in H. destruct H as [p ->].
  rewrite toLowerCase_app. apply endsWith_app.
Qed.

Lemma truthy_iff (s : string) : truthy s = true <-> s <> "".
Proof.
  unfold truthy. rewrite negb_true_iff. apply String.eqb_neq.
Qed.

End StrFacts.

(** The two tests on the URL agree: a URL has a recognised extension
    exactly when a mime type can be inferred from it. *)
Lemma isImageUrl_getMimeTypeFromUrl (u : string) :
  isImageUrl u = true <-> getMimeTypeFromUrl u <> None.
Proof.
  unfold isImageUrl, getMimeTypeFromUrl, some, IMAGE_EXTENSIONS. simpl.
  destruct (Str.endsWith (Str.toLowerCase u) ".jpg");
  destruct (Str.endsWith (Str.toLowerCase u) ".jpeg");
  destruct (Str.endsWith (Str.toLowerCase u) ".png");
  destruct (Str.endsWith (Str.toLowerCase u) ".gif");
  destruct (Str.endsWith (Str.toLowerCase u) ".webp");
  destruct (Str.endsWith (Str.toLowerCase u) ".bmp");
  destruct (Str.endsWith (Str.toLowerCase u) ".ico");
  destruct (Str.endsWith (Str.toLowerCase u) ".svg");
  simpl; split; congruence.
Qed.

(** A URL whose lower-cased form ends in [.gif] is inferred as a GIF. *)
Lemma getMimeTypeFromUrl_gif (u : string) :
  Str.endsWith (Str.toLowerCase u) ".gif" = true ->
  getMimeTypeFromUrl u = Some "image/gif".
Proof.
  intros H. unfold getMimeTypeFromUrl.
  assert (Hjpg : Str.endsWith (Str.toLowerCase u) ".jpg" = false).
  { destruct (Str.endsWith (Str.toLowerCase u) ".jpg") eqn:E; [|reflexivity].
    pose proof (StrFacts.endsWith_same_length _ _ _ H E eq_refl). discriminate. }
  assert (Hpng : Str.endsWith (Str.toLowerCase u) ".png" = false).
  { destruct (Str.endsWith (Str.toLowerCase u) ".png") eqn:E; [|reflexivity].
    pose proof (StrFacts.endsWith_same_length _ _ _ H E eq_refl). discriminate. }
  assert (Hjpeg : Str.endsWith (Str.toLowerCase u) ".jpeg" = false).
  { destruct (Str.endsWith (Str.toLowerCase u) ".jpeg") eqn:E; [|reflexivity].
    pose proof (StrFacts.endsWith_tail (Str.toLowerCase u) "." "jpeg" E) as E'.
    pose proof (StrFacts.endsWith_same_length _ _ _ H E' eq_refl). discriminate. }
  rewrite Hjpg, Hjpeg, Hpng, H. reflexivity.
Qed.

Lemma keep_first_Subsequence (seen l : list ExtractImageData) :
  Subsequence (keep_first seen l) l.
Proof.
  revert seen. induction l as [|x t IH]; intros seen; simpl; [constructor|].
  destruct (existsb (same_key x) seen); constructor; apply IH.
Qed.

(** ** Results of [extractImagesFromURL] *)

(** C1. Whenever [extractImagesFromURL] returns a list, no two of its
    records have the same ([src], [mimeType]) pair; the list keeps the
    discovery order of the records collected; each record kept is the first
    collected record with its pair; and every collected pair is
    represented. *)
Theorem extract_unique_first
        (StringToNumber : string -> JsNumber) (browser : Browser) (url_ : string)
        (result : list ExtractImageData) (cs : list Call) :
  run StringToNumber browser url_ = (Ok result, cs) ->
  NoDup (map key result) /\
  exists page,
    newPage browser = Ok page /\
    Subsequence result (discovered StringToNumber page url_) /\
    (forall rec, In rec result ->
       exists before after,
         discovered StringToNumber page url_ = before ++ rec :: after /\
         forall y, In y before -> key y <> key rec) /\
    (forall x, In x (discovered StringToNumber page url_) ->
       exists rec, In rec result /\ key rec = key x).
Proof.
  intros Hrun. destruct (run_ok _ _ _ _ _ Hrun) as (page & Hp & ->).
  rewrite uniqueImages_keep_first. split; [apply keep_first_NoDup|].
  exists page. split; [exact Hp|]. split; [apply keep_first_Subsequence|]. split.
  - intros rec Hrec.
    destruct (keep_first_first _ _ _ Hrec) as (l1 & l2 & Heq & Hn).
    exists l1, l2. split; [exact Heq | exact Hn].
  - intros x Hx.
    destruct (keep_first_complete [] _ x Hx) as [H | (y & [] & _)]. exact H.
Qed.

Lemma extract_unique_first_witness :
  let browser := Examples.browser_receiving
                   [Examples.png; Examples.gif_bare; Examples.png] [2] in
  let result := [newImage Examples.decimalToNumber Examples.png;
                 json_image (newImage Examples.decimalToNumber Examples.gif_bare)] in
  NoDup (map key result) /\
  exists page,
    newPage browser = Ok page /\
    Subsequence result (discovered Examples.decimalToNumber page Examples.home) /\
    (forall rec, In rec result ->
       exists before after,
         discovered Examples.decimalToNumber page Examples.home
         = before ++ rec :: after /\
         forall y, In y before -> key y <> key rec) /\
    (forall x, In x (discovered Examples.decimalToNumber page Examples.home) ->
       exists rec, In rec result /\ key rec = key x).
Proof.
  intros browser result.
  apply (extract_unique_first Examples.decimalToNumber browser Examples.home result
           [CallNewPage; CallGoto Examples.home; CallScreenshot;
            CallEvaluate; CallClose]).
  vm_compute. reflexivity.
Defined.

(** Every returned record was built by the handler for a response it
    observed and accepted. *)
Lemma result_provenance
      (StringToNumber : string -> JsNumber) (browser : Browser) (url_ : string)
      (result : list ExtractImageData) (cs : list Call) (rec : ExtractImageData) :
  run StringToNumber browser url_ = (Ok result, cs) ->
  In rec result ->
  exists page r,
    newPage browser = Ok page /\ In r (observed page url_) /\
    isImage r = true /\
    ((In r (arrivals (goto page url_) ++ arrivals (screenshot page)) /\
      (rec = json_image (newImage StringToNumber r) \/
       exists w h,
         rec = measured (json_image (newImage StringToNumber r)) w h)) \/
     (In r (arrivals (close page)) /\
      rec = newImage StringToNumber r)).
Proof.
  intros Hrun Hin. destruct (run_ok _ _ _ _ _ Hrun) as (page & Hp & ->).
  apply in_uniqueImages in Hin.
  destruct (discovered_provenance _ _ _ _ Hin) as (r & Hr & Hi & Hrec).
  exists page, r. auto.
Qed.

(** ** Classification *)

Lemma isImageUrl_iff (u : string) :
  isImageUrl u = true <->
  exists p t ext, u = (p ++ t)%string /\
                  In ext IMAGE_EXTENSIONS /\ Str.toLowerCase t = ext.
Proof.
  unfold isImageUrl, some. rewrite existsb_exists. split.
  - intros (ext & Hext & He). apply StrFacts.endsWith_lower_iff in He.
    destruct He as (p & t & Hu & Ht). exists p, t, ext. auto.
  - intros (p & t & ext & Hu & Hext & Ht). exists ext. split; [exact Hext|].
    apply StrFacts.endsWith_lower_iff. exists p, t. auto.
Qed.

Lemma isImage_qualifies (r : HTTPResponse) : isImage r = true <-> qualifies r.
Proof.
  unfold isImage, qualifies.
  destruct (header (headers r) "content-type") as [c|].
  - rewrite orb_true_iff, isImageUrl_iff. split.
    + intros [H | H]; [left; exists c; auto | right; exact H].
    + intros [(c' & Hc & H) | H]; [left; congruence | right; exact H].
  - rewrite isImageUrl_iff. split; [auto|].
    intros [(c' & Hc & _) | H]; [discriminate | exact H].
Qed.

(** C2, as the code has it. The handler appends a record for a response
    exactly when the content-type header starts with ["image"] or the whole
    URL string (query string and fragment included) ends, in any mix of
    cases, with one of [.jpg .jpeg .png .gif .webp .bmp .ico .svg]; it
    leaves [images] alone otherwise; and every record of a returned list was
    built for an observed response that passed this test. *)
Theorem classification_by_whole_url (StringToNumber : string -> JsNumber) :
  (forall r imgs,
     qualifies r ->
     on_response StringToNumber r imgs = imgs ++ [newImage StringToNumber r]) /\
  (forall r imgs,
     ~ qualifies r -> on_response StringToNumber r imgs = imgs) /\
  (forall browser url_ result cs rec,
     run StringToNumber browser url_ = (Ok result, cs) ->
     In rec result ->
     exists page r,
       newPage browser = Ok page /\ In r (observed page url_) /\
       src rec = url r /\ qualifies r).
Proof.
  split; [|split].
  - intros r imgs H. apply isImage_qualifies in H.
    unfold on_response. rewrite H. reflexivity.
  - intros r imgs H. unfold on_response.
    destruct (isImage r) eqn:E; [|reflexivity].
    exfalso. apply H. apply isImage_qualifies. exact E.
  - intros browser url_ result cs rec Hrun Hin.
    destruct (result_provenance _ _ _ _ _ _ Hrun Hin)
      as (page & r & Hp & Hr & Hi & Hrec).
    exists page, r. split; [exact Hp|]. split; [exact Hr|].
    split; [|apply isImage_qualifies; exact Hi].
    destruct Hrec as [[_ [-> | (w & h & ->)]] | [_ ->]]; reflexivity.
Qed.

Lemma classification_by_whole_url_witness :
  on_response Examples.decimalToNumber Examples.html_named_png []
  = [newImage Examples.decimalToNumber Examples.html_named_png] /\
  on_response Examples.decimalToNumber Examples.png_versioned [] = [].
Proof.
  destruct (classification_by_whole_url Examples.decimalToNumber)
    as (Hyes & Hno & _).
  split.
  - apply (Hyes Examples.html_named_png []).
    right. exists "https://example.com/view/photo", ".PNG", ".png".
    split; [reflexivity|]. split; [|reflexivity].
    unfold IMAGE_EXTENSIONS. simpl. tauto.
  - apply (Hno Examples.png_versioned []).
    intros H. apply isImage_qualifies in H. vm_compute in H. discriminate.
Defined.

(** C2, as stated, fails: a response without content-type for
    [https://example.com/logo.png?v=2] has a path ending in [.png], and the
    handler creates no record for it. *)
Lemma classification_path_suffix_counterexample :
  isImage_by_path Examples.png_versioned = true /\
  isImage Examples.png_versioned = false /\
  on_response Examples.decimalToNumber Examples.png_versioned [] = [] /\
  run Examples.decimalToNumber
      (Examples.browser_receiving [Examples.png_versioned] []) Examples.home
  = (Ok [], [CallNewPage; CallGoto Examples.home; CallScreenshot;
             CallEvaluate; CallClose]).
Proof. vm_compute. repeat split. Qed.

(** ** The [size] field *)

Lemma digit_of_ascii_nonneg (c : ascii) (d : Z) :
  digit_of_ascii c = Some d -> (0 <= d)%Z.
Proof.
  unfold digit_of_ascii.
  destruct ((48 <=? nat_of_ascii c)%nat && (nat_of_ascii c <=? 57)%nat);
    [|discriminate].
  intros H. injection H as <-. apply Nat2Z.is_nonneg.
Qed.

Lemma decimal_digits_from_nonneg (s : string) (acc z : Z) :
  decimal_digits_from s acc = Some z -> (0 <= acc)%Z -> (0 <= z)%Z.
Proof.
  revert acc. induction s as [|c t IH]; intros acc H Hacc;
    cbn [decimal_digits_from] in H.
  - inversion H. subst. exact Hacc.
  - destruct (digit_of_ascii c) as [d|] eqn:Ed; [|discriminate].
    apply (IH _ H). pose proof (digit_of_ascii_nonneg _ _ Ed). lia.
Qed.

Lemma decimal_value_nonneg (s : string) (z : Z) :
  decimal_value s = Some z -> (0 <= z)%Z.
Proof.
  unfold decimal_value. destruct s as [|c t]; [discriminate|].
  intros H. apply (decimal_digits_from_nonneg _ _ _ H). lia.
Qed.

(** The [size] of a returned record is the [size] the handler computed for
    an observed response, carried through JSON when the record crossed
    [page.evaluate]. *)
Lemma size_provenance
      (StringToNumber : string -> JsNumber) (browser : Browser) (url_ : string)
      (result : list ExtractImageData) (cs : list Call) (rec : ExtractImageData) :
  run StringToNumber browser url_ = (Ok result, cs) ->
  In rec result ->
  exists page r,
    newPage browser = Ok page /\ In r (observed page url_) /\
    isImage r = true /\ src rec = url r /\
    ((In r (arrivals (goto page url_) ++ arrivals (screenshot page)) /\
      size rec = json_value (size (newImage StringToNumber r))) \/
     (In r (arrivals (close page)) /\
      size rec = size (newImage StringToNumber r))).
Proof.
  intros Hrun Hin.
  destruct (result_provenance _ _ _ _ _ _ Hrun Hin)
    as (page & r & Hp & Hr & Hi & Hrec).
  exists page, r. split; [exact Hp|]. split; [exact Hr|]. split; [exact Hi|].
  destruct Hrec as [[Ha [-> | (w & h & ->)]] | [Hb ->]].
  - split; [reflexivity|]. left. split; [exact Ha | reflexivity].
  - split; [reflexivity|]. left. split; [exact Ha | reflexivity].
  - split; [reflexivity|]. right. split; [exact Hb | reflexivity].
Qed.

(** C4, as the code has it. Every record of a returned list was built for
    an observed, qualifying response [r] with [src] the URL of [r]. When
    [src] starts with ["data:"], [size] is the character length of [src],
    a non-negative number. Otherwise [size] comes from
    [Number(content-length)]: when the header is a string of decimal
    digits denoting at most 2^53, [size] is that byte count, a non-negative
    number; when the header is absent the handler computes [NaN], which is
    returned as [null] if the response arrived before the evaluation (the
    record crossed [page.evaluate] as JSON) and as [NaN] if it arrived
    while [close] was awaited, in neither case a non-negative number. *)
Theorem size_of_returned_records
        (StringToNumber : string -> JsNumber) (browser : Browser) (url_ : string)
        (result : list ExtractImageData) (cs : list Call) (rec : ExtractImageData) :
  run StringToNumber browser url_ = (Ok result, cs) ->
  In rec result ->
  exists page r,
    newPage browser = Ok page /\ In r (observed page url_) /\
    isImage r = true /\ src rec = url r /\
    (Str.startsWith (src rec) "data:" = true ->
     size rec = JsNumeric (JsNum (Z.of_nat (String.length (src rec)))) /\
     isNonNegativeNumber (size rec)) /\
    (Str.startsWith (src rec) "data:" = false ->
     (forall s z,
        header (headers r) "content-length" = Some s ->
        decimal_value s = Some z ->
        (z <= MAX_EXACT_INTEGER)%Z ->
        size rec = JsNumeric (JsNum z) /\ isNonNegativeNumber (size rec)) /\
     (header (headers r) "content-length" = None ->
      ((In r (arrivals (goto page url_) ++ arrivals (screenshot page)) /\
        size rec = JsNull) \/
       (In r (arrivals (close page)) /\ size rec = JsNumeric JsNaN)) /\
      ~ isNonNegativeNumber (size rec)) /\
     ((In r (arrivals (goto page url_) ++ arrivals (screenshot page)) /\
       size rec = json_number
                    (Number StringToNumber (header (headers r) "content-length"))) \/
      (In r (arrivals (close page)) /\
       size rec = JsNumeric
                    (Number StringToNumber (header (headers r) "content-length"))))).
Proof.
  intros Hrun Hin.
  destruct (size_provenance _ _ _ _ _ _ Hrun Hin)
    as (page & r & Hp & Hr & Hi & Hsrc & Hsize).
  exists page, r. split; [exact Hp|]. split; [exact Hr|]. split; [exact Hi|].
  split; [exact Hsrc|].
  rewrite Hsrc. unfold newImage in Hsize. simpl in Hsize. split.
  - intros Hdata. rewrite Hdata in Hsize.
    assert (Hs : size rec = JsNumeric (JsNum (Z.of_nat (String.length (url r))))).
    { destruct Hsize as [[_ ->] | [_ ->]]; reflexivity. }
    rewrite Hs. split; [reflexivity|]. simpl. lia.
  - intros Hdata. rewrite Hdata in Hsize. split; [|split].
    + intros s z Hh Hz Hle.
      assert (Hn : Number StringToNumber (header (headers r) "content-length")
                   = JsNum z).
      { rewrite Hh. simpl. rewrite Hz.
        apply Z.leb_le in Hle. rewrite Hle. reflexivity. }
      rewrite Hn in Hsize.
      assert (Hs : size rec = JsNumeric (JsNum z)).
      { destruct Hsize as [[_ ->] | [_ ->]]; reflexivity. }
      rewrite Hs. split; [reflexivity|]. simpl.
      apply (decimal_value_nonneg s). exact Hz.
    + intros Hh. rewrite Hh in Hsize. simpl in Hsize.
      destruct Hsize as [[Ha Hs] | [Hb Hs]]; rewrite Hs.
      * split; [left; split; [exact Ha | reflexivity] | simpl; tauto].
      * split; [right; split; [exact Hb | reflexivity] | simpl; tauto].
    + exact Hsize.
Qed.

Lemma size_of_returned_records_witness :
  let browser := Examples.browser_receiving
                   [Examples.data_png; Examples.png] [] in
  let rec := newImage Examples.decimalToNumber Examples.png in
  exists page r,
    newPage browser = Ok page /\ In r (observed page Examples.home) /\
    isImage r = true /\ src rec = url r /\
    (Str.startsWith (src rec) "data:" = true ->
     size rec = JsNumeric (JsNum (Z.of_nat (String.length (src rec)))) /\
     isNonNegativeNumber (size rec)) /\
    (Str.startsWith (src rec) "data:" = false ->
     (forall s z,
        header (headers r) "content-length" = Some s ->
        decimal_value s = Some z ->
        (z <= MAX_EXACT_INTEGER)%Z ->
        size rec = JsNumeric (JsNum z) /\ isNonNegativeNumber (size rec)) /\
     (header (headers r) "content-length" = None ->
      ((In r (arrivals (goto page Examples.home) ++ arrivals (screenshot page)) /\
        size rec = JsNull) \/
       (In r (arrivals (close page)) /\ size rec = JsNumeric JsNaN)) /\
      ~ isNonNegativeNumber (size rec)) /\
     ((In r (arrivals (goto page Examples.home) ++ arrivals (screenshot page)) /\
       size rec = json_number
                    (Number Examples.decimalToNumber
                            (header (headers r) "content-length"))) \/
      (In r (arrivals (close page)) /\
       size rec = JsNumeric
                    (Number Examples.decimalToNumber
                            (header (headers r) "content-length"))))).
Proof.
  intros browser rec.
  apply (size_of_returned_records Examples.decimalToNumber browser Examples.home
           [newImage Examples.decimalToNumber Examples.data_png;
            newImage Examples.decimalToNumber Examples.png]
           [CallNewPage; CallGoto Examples.home; CallScreenshot;
            CallEvaluate; CallClose] rec).
  - vm_compute. reflexivity.
  - right. left. reflexivity.
Defined.

(** C4, as stated, fails: an image response that carries no content-length
    header yields a record whose [size] is not a non-negative number. It is
    [null] when the response arrived during navigation, the [NaN] of the
    handler having crossed [page.evaluate], and [NaN] when it arrived while
    [close] was awaited. *)
Lemma size_without_content_length_counterexample :
  let late := {| goto := fun _ => Examples.quiet;
                 screenshot := Examples.quiet;
                 evaluate := Examples.quiet;
                 img_decode := fun _ _ => None;
                 close := Examples.during [Examples.png_chunked] |} in
  (exists rec,
     run Examples.decimalToNumber
         (Examples.browser_receiving [Examples.png_chunked] []) Examples.home
     = (Ok [rec], [CallNewPage; CallGoto Examples.home; CallScreenshot;
                   CallEvaluate; CallClose]) /\
     src rec = "https://example.com/a.png" /\
     size rec = JsNull /\ ~ isNonNegativeNumber (size rec)) /\
  (exists rec,
     run Examples.decimalToNumber {| newPage := Ok late |} Examples.home
     = (Ok [rec], [CallNewPage; CallGoto Examples.home; CallScreenshot;
                   CallEvaluate; CallClose]) /\
     src rec = "https://example.com/a.png" /\
     size rec = JsNumeric JsNaN /\ ~ isNonNegativeNumber (size rec)).
Proof.
  intros late. split.
  - exists (json_image (newImage Examples.decimalToNumber Examples.png_chunked)).
    split; [vm_compute; reflexivity|]. split; [reflexivity|].
    split; [reflexivity|]. simpl. tauto.
  - exists (newImage Examples.decimalToNumber Examples.png_chunked).
    split; [vm_compute; reflexivity|]. split; [reflexivity|].
    split; [reflexivity|]. simpl. tauto.
Qed.

(** ** Decoded dimensions *)



(** ** The [mimeType] field *)

Lemma getMimeTypeFromUrl_truthy (u m : string) :
  getMimeTypeFromUrl u = Some m -> Str.truthy m = true.
Proof.
  unfold getMimeTypeFromUrl.
  repeat match goal with
         | |- context [if ?b then _ else _] => destruct b
         end;
    intros H; inversion H; reflexivity.
Qed.

(** C8, as the code has it. The [mimeType] of a created record is the
    content-type header when that header is present and not the empty
    string; otherwise the type inferred from the URL's extension when there
    is one; otherwise ["image/unknown"]. A response without content-type
    whose URL ends in [.gif] qualifies and gets ["image/gif"]. *)
Theorem mimeType_resolution (StringToNumber : string -> JsNumber)
        (r : HTTPResponse) :
  (forall c, header (headers r) "content-type" = Some c -> c <> "" ->
             mimeType (newImage StringToNumber r) = c) /\
  (header (headers r) "content-type" = None \/
   header (headers r) "content-type" = Some "" ->
   (forall m, getMimeTypeFromUrl (url r) = Some m ->
              mimeType (newImage StringToNumber r) = m) /\
   (getMimeTypeFromUrl (url r) = None ->
    mimeType (newImage StringToNumber r) = "image/unknown")) /\
  (header (headers r) "content-type" = None ->
   Str.endsWith (url r) ".gif" = true ->
   forall imgs,
     on_response StringToNumber r imgs = imgs ++ [newImage StringToNumber r] /\
     mimeType (newImage StringToNumber r) = "image/gif").
Proof.
  split; [|split].
  - intros c Hc Hne. unfold newImage. simpl. rewrite Hc. simpl.
    apply StrFacts.truthy_iff in Hne. rewrite Hne. simpl. rewrite Hne.
    reflexivity.
  - intros Hc.
    assert (Hor : or_else (header (headers r) "content-type")
                          (getMimeTypeFromUrl (url r))
                  = getMimeTypeFromUrl (url r)).
    { destruct Hc as [-> | ->]; reflexivity. }
    unfold newImage. simpl. rewrite Hor. split.
    + intros m Hm. rewrite Hm. simpl.
      rewrite (getMimeTypeFromUrl_truthy _ _ Hm). reflexivity.
    + intros ->. reflexivity.
  - intros Hc Hgif imgs.
    apply StrFacts.endsWith_lower in Hgif. simpl in Hgif.
    change (Str.toLowerCase ".gif") with ".gif" in Hgif.
    pose proof (getMimeTypeFromUrl_gif _ Hgif) as Hm.
    split.
    + unfold on_response, isImage. rewrite Hc.
      assert (Hi : isImageUrl (url r) = true).
      { apply isImageUrl_getMimeTypeFromUrl. rewrite Hm. discriminate. }
      rewrite Hi. reflexivity.
    + unfold newImage. simpl. rewrite Hc, Hm. reflexivity.
Qed.

Lemma mimeType_resolution_witness :
  mimeType (newImage Examples.decimalToNumber Examples.html_named_png)
  = "text/html" /\
  forall imgs,
    on_response Examples.decimalToNumber Examples.gif_bare imgs
    = imgs ++ [newImage Examples.decimalToNumber Examples.gif_bare] /\
    mimeType (newImage Examples.decimalToNumber Examples.gif_bare) = "image/gif".
Proof.
  split.
  - destruct (mimeType_resolution Examples.decimalToNumber Examples.html_named_png)
      as (H & _).
    apply (H "text/html"); [reflexivity | discriminate].
  - destruct (mimeType_resolution Examples.decimalToNumber Examples.gif_bare)
      as (_ & _ & H).
    apply H; reflexivity.
Defined.

(** C8, as stated, fails: a response for [https://example.com/b.gif] whose
    content-type header is present and empty gets ["image/gif"], not the
    header's value. *)
Lemma mimeType_empty_content_type_counterexample :
  header (headers Examples.gif_empty_type) "content-type" = Some "" /\
  on_response Examples.decimalToNumber Examples.gif_empty_type []
  = [newImage Examples.decimalToNumber Examples.gif_empty_type] /\
  mimeType (newImage Examples.decimalToNumber Examples.gif_empty_type)
  = "image/gif" /\
  mimeType (newImage Examples.decimalToNumber Examples.gif_empty_type) <> "".
Proof. vm_compute. repeat split. discriminate. Qed.

(** C10. A response whose content-type header is a non-empty string that
    does not start with ["image"], and whose URL ends with a recognised
    extension, gets a record, and the record's [mimeType] is that header,
    verbatim. *)
Theorem non_image_content_type_kept
        (StringToNumber : string -> JsNumber) (r : HTTPResponse) (c : string)
        (imgs : list ExtractImageData) :
  header (headers r) "content-type" = Some c ->
  c <> "" ->
  Str.startsWith c "image" = false ->
  isImageUrl (url r) = true ->
  on_response StringToNumber r imgs = imgs ++ [newImage StringToNumber r] /\
  mimeType (newImage StringToNumber r) = c.
Proof.
  intros Hc Hne Hni Hu. split.
  - unfold on_response, isImage. rewrite Hc, Hni, Hu. reflexivity.
  - unfold newImage. simpl. rewrite Hc. simpl.
    apply StrFacts.truthy_iff in Hne. rewrite Hne. simpl. rewrite Hne.
    reflexivity.
Qed.

Lemma non_image_content_type_kept_witness :
  on_response Examples.decimalToNumber Examples.html_named_png []
  = [newImage Examples.decimalToNumber Examples.html_named_png] /\
  mimeType (newImage Examples.decimalToNumber Examples.html_named_png)
  = "text/html".
Proof.
  apply (non_image_content_type_kept Examples.decimalToNumber
           Examples.html_named_png "text/html" []).
  - reflexivity.
  - discriminate.
  - reflexivity.
  - reflexivity.
Defined.

(** ** Failures of the page *)

(** C9. An error thrown by [newPage], by [goto] or by [screenshot] is what
    the call throws, unchanged; the failed operation was called once and
    nothing was called after it; and the outcome is that error alone, with
    no list. *)
Theorem structural_errors_propagate
        (StringToNumber : string -> JsNumber) (browser : Browser) (url_ : string) :
  (forall e, newPage browser = Throw e ->
     run StringToNumber browser url_ = (Throw e, [CallNewPage])) /\
  (forall page e,
     newPage browser = Ok page ->
     outcome (goto page url_) = Throw e ->
     run StringToNumber browser url_ = (Throw e, [CallNewPage; CallGoto url_])) /\
  (forall page e,
     newPage browser = Ok page ->
     outcome (goto page url_) = Ok tt ->
     outcome (screenshot page) = Throw e ->
     run StringToNumber browser url_
     = (Throw e, [CallNewPage; CallGoto url_; CallScreenshot])).
Proof.
  rewrite run_cases. split; [|split].
  - intros e ->. reflexivity.
  - intros page e -> ->. reflexivity.
  - intros page e -> -> ->. reflexivity.
Qed.

Lemma structural_errors_propagate_witness :
  run Examples.decimalToNumber {| newPage := Throw Examples.net_error |}
      Examples.home
  = (Throw Examples.net_error, [CallNewPage]) /\
  run Examples.decimalToNumber {| newPage := Ok Examples.page_unreachable |}
      Examples.home
  = (Throw Examples.net_error, [CallNewPage; CallGoto Examples.home]).
Proof.
  split.
  - destruct (structural_errors_propagate Examples.decimalToNumber
                {| newPage := Throw Examples.net_error |} Examples.home)
      as (H & _).
    apply H. reflexivity.
  - destruct (structural_errors_propagate Examples.decimalToNumber
                {| newPage := Ok Examples.page_unreachable |} Examples.home)
      as (_ & H & _).
    apply (H Examples.page_unreachable); reflexivity.
Defined.

(** C5, at a failing input. When navigation throws, the call throws having
    opened the page and never called [close] on it. (When nothing throws,
    [close] is the last call.) *)
Theorem page_left_open_when_goto_throws :
  let outcome_ := run Examples.decimalToNumber
                      {| newPage := Ok Examples.page_unreachable |}
                      Examples.home in
  fst outcome_ = Throw Examples.net_error /\
  In CallNewPage (snd outcome_) /\
  ~ In CallClose (snd outcome_).
Proof.
  vm_compute. split; [reflexivity|]. split; [tauto|].
  intros [H | [H | []]]; discriminate.
Qed.

(** ** Acquisition *)

Section AcquireFacts.

Variable World : Type.
Variable puppeteer : Provider World.

(** A failed attach is logged and the loop goes on with the next id. *)
Lemma connect_each_skip (msg : string) (B : BrowserWorker)
      (sessionId_ : string) (rest : list string) (st : Acquisition World)
      (e : JsError) (w : World) :
  connect puppeteer B sessionId_ (world st) = (Throw e, w) ->
  connect_each puppeteer msg B (sessionId_ :: rest) st
  = connect_each puppeteer msg B rest
      {| world := w;
         console := console st ++ [ConsoleLog [msg; sessionId_]; ConsoleError e] |}.
Proof.
  intros H. simpl.
  unfold bind, try_catch, console_log, console_error, modify, remote, ret.
  simpl. rewrite H. simpl. rewrite <- app_assoc. reflexivity.
Qed.

(** A successful attach ends the loop with its handle. *)
Lemma connect_each_hit (msg : string) (B : BrowserWorker)
      (sessionId_ : string) (rest : list string) (st : Acquisition World)
      (b : Browser) (w : World) :
  connect puppeteer B sessionId_ (world st) = (Ok b, w) ->
  connect_each puppeteer msg B (sessionId_ :: rest) st
  = (Ok (Some b),
     {| world := w; console := console st ++ [ConsoleLog [msg; sessionId_]] |}).
Proof.
  intros H. simpl.
  unfold bind, try_catch, console_log, console_error, modify, remote, ret.
  simpl. rewrite H. reflexivity.
Qed.

(** The attach loop never throws. *)
Lemma connect_each_returns (msg : string) (B : BrowserWorker)
      (ids : list string) :
  returns (connect_each puppeteer msg B ids).
Proof.
  induction ids as [|i rest IH]; intros st.
  - exists None, st. reflexivity.
  - destruct (connect puppeteer B i (world st)) as [[b|e] w] eqn:E.
    + rewrite (connect_each_hit msg B i rest st b w E). eauto.
    + rewrite (connect_each_skip msg B i rest st e w E). apply IH.
Qed.

(** C6. When the listing yields three idle sessions, attaching fails for
    the first two and succeeds for the third, [getBrowser] returns the
    handle of the third; each failure is logged and the search goes on. *)
Theorem third_idle_session_is_returned
        (B : BrowserWorker) (wsEndpoint : option string)
        (st : Acquisition World) (listed : list SessionInfo)
        (s1 s2 s3 : string) (e1 e2 : JsError) (b : Browser)
        (w1 w2 w3 w4 : World) :
  sessions puppeteer B (world st) = (Ok listed, w1) ->
  map sessionId (filter (fun s => not_connected (connectionId s)) listed)
  = [s1; s2; s3] ->
  connect puppeteer B s1 w1 = (Throw e1, w2) ->
  connect puppeteer B s2 w2 = (Throw e2, w3) ->
  connect puppeteer B s3 w3 = (Ok b, w4) ->
  getBrowser puppeteer (Some B) wsEndpoint st
  = (Ok (Some b),
     {| world := w4;
        console := console st ++
          [ConsoleLog ["Connecting to existing session: "; s1]; ConsoleError e1;
           ConsoleLog ["Connecting to existing session: "; s2]; ConsoleError e2;
           ConsoleLog ["Connecting to existing session: "; s3]] |}).
Proof.
  intros Hs Hids H1 H2 H3.
  unfold getBrowser, bind at 1 2 3.
  unfold remote at 1. rewrite Hs, Hids.
  rewrite (connect_each_skip _ B s1 [s2; s3] _ e1 w2); [|exact H1].
  rewrite (connect_each_skip _ B s2 [s3] _ e2 w3); [|exact H2].
  rewrite (connect_each_hit _ B s3 [] _ b w4); [|exact H3].
  unfold bind, ret. simpl. rewrite <- !app_assoc. reflexivity.
Qed.

(** X21. Apart from the two listing calls, nothing in [getBrowser] can throw:
    when [puppeteer.sessions] and [puppeteer.limits] return, so does
    [getBrowser], whatever attaching, launching and connecting do. *)
Lemma getBrowser_returns_when_listings_return
      (BROWSER : option BrowserWorker) (wsEndpoint : option string) :
  (forall B w, exists l w', sessions puppeteer B w = (Ok l, w')) ->
  (forall B w, exists l w', limits puppeteer B w = (Ok l, w')) ->
  returns (getBrowser puppeteer BROWSER wsEndpoint).
Proof.
  intros Hsessions Hlimits. unfold getBrowser.
  apply returns_bind.
  - destruct BROWSER as [B|]; [|apply returns_ret].
    apply returns_bind.
    { intros s. unfold remote.
      destruct (Hsessions B (world s)) as (l & w' & ->). eauto. }
    intros listed. apply returns_bind; [apply connect_each_returns|].
    intros browser. apply returns_bind.
    + destruct browser as [b|]; [apply returns_ret|].
      apply returns_bind.
      { intros s. unfold remote.
        destruct (Hlimits B (world s)) as (l & w' & ->). eauto. }
      intros limitsResp. apply connect_each_returns.
    + intros browser'. destruct browser' as [b|]; [apply returns_ret|].
      apply returns_try_catch. intros error.
      apply returns_bind; [apply returns_modify | intros _; apply returns_ret].
  - intros browser. destruct browser as [b|]; [apply returns_ret|].
    destruct wsEndpoint as [ws|]; [|apply returns_ret].
    destruct (Str.truthy ws); [|apply returns_ret].
    apply returns_bind; [apply returns_modify|]. intros _.
    apply returns_try_catch. intros error.
    apply returns_bind; [apply returns_modify | intros _; apply returns_ret].
Qed.

End AcquireFacts.

Lemma third_idle_session_is_returned_witness :
  getBrowser AcquireExamples.pool (Some AcquireExamples.BROWSER) None
             AcquireExamples.start
  = (Ok (Some AcquireExamples.handle),
     {| world := 4;
        console :=
          [ConsoleLog ["Connecting to existing session: "; "a"];
           ConsoleError (AcquireExamples.stale "a");
           ConsoleLog ["Connecting to existing session: "; "b"];
           ConsoleError (AcquireExamples.stale "b");
           ConsoleLog ["Connecting to existing session: "; "c"]] |}).
Proof.
  apply (third_idle_session_is_returned nat AcquireExamples.pool
           AcquireExamples.BROWSER None AcquireExamples.start
           [mkSession "a" None; mkSession "busy" (Some "conn-1");
            mkSession "b" (Some ""); mkSession "c" None]
           "a" "b" "c"
           (AcquireExamples.stale "a") (AcquireExamples.stale "b")
           AcquireExamples.handle 1 2 3 4); reflexivity.
Defined.

(** C3, at a failing input. When [puppeteer.sessions] throws, [getBrowser]
    throws that error: nothing is logged and the direct endpoint, which
    would have given a handle, is never tried. *)
Theorem getBrowser_throws_when_listing_throws :
  getBrowser AcquireExamples.pool_down (Some AcquireExamples.BROWSER)
             (Some "ws://localhost:3000") AcquireExamples.start
  = (Throw AcquireExamples.unavailable, {| world := 1; console := [] |}) /\
  getBrowser AcquireExamples.pool_down None
             (Some "ws://localhost:3000") AcquireExamples.start
  = (Ok (Some AcquireExamples.handle),
     {| world := 1;
        console := [ConsoleLog ["Connecting to browser using wsEndpoint: ";
                                "ws://localhost:3000"]] |}).
Proof. split; reflexivity. Qed.

(** * Further properties *)

(** ** The life of a call *)

(** X1. A call returns a list exactly when [newPage], [goto],
    [screenshot], [evaluate] and [close] all succeed; the list is then the
    filtered collection and the calls made are those five, once each, in
    that order, so the page has been closed. *)
Theorem returned_list_iff_all_succeed
        (StringToNumber : string -> JsNumber) (browser : Browser) (url_ : string)
        (result : list ExtractImageData) (cs : list Call) :
  run StringToNumber browser url_ = (Ok result, cs) <->
  exists page,
    newPage browser = Ok page /\
    outcome (goto page url_) = Ok tt /\
    outcome (screenshot page) = Ok tt /\
    outcome (evaluate page) = Ok tt /\
    outcome (close page) = Ok tt /\
    result = uniqueImages (discovered StringToNumber page url_) /\
    cs = full_trace url_.
Proof.
  rewrite run_cases. unfold full_trace. split.
  - destruct (newPage browser) as [page|e] eqn:Hp; [|discriminate].
    destruct (outcome (goto page url_)) as [[]|e] eqn:Hg; [|discriminate].
    destruct (outcome (screenshot page)) as [[]|e] eqn:Hs; [|discriminate].
    destruct (outcome (evaluate page)) as [[]|e] eqn:He; [|discriminate].
    destruct (outcome (close page)) as [[]|e] eqn:Hc; [|discriminate].
    intros H. inversion H; subst. exists page. auto 10.
  - intros (page & -> & -> & -> & -> & -> & -> & ->). reflexivity.
Qed.

(** X2. An error thrown by [evaluate] or by [close] is what the call
    throws, unchanged. After a failed [evaluate] the page is not closed;
    after a failed [close] the list that had been collected is not
    returned. *)
Theorem late_errors_propagate
        (StringToNumber : string -> JsNumber) (browser : Browser) (url_ : string)
        (page : Page) (e : JsError) :
  newPage browser = Ok page ->
  outcome (goto page url_) = Ok tt ->
  outcome (screenshot page) = Ok tt ->
  (outcome (evaluate page) = Throw e ->
   run StringToNumber browser url_
   = (Throw e, [CallNewPage; CallGoto url_; CallScreenshot; CallEvaluate])) /\
  (outcome (evaluate page) = Ok tt ->
   outcome (close page) = Throw e ->
   run StringToNumber browser url_ = (Throw e, full_trace url_)).
Proof.
  intros Hp Hg Hs. rewrite run_cases, Hp, Hg, Hs. split.
  - intros ->. reflexivity.
  - intros -> ->. reflexivity.
Qed.

Lemma late_errors_propagate_witness :
  run Examples.decimalToNumber
      {| newPage := Ok (Pages.evaluate_fails [Examples.png]) |} Examples.home
  = (Throw Pages.crashed,
     [CallNewPage; CallGoto Examples.home; CallScreenshot; CallEvaluate]) /\
  run Examples.decimalToNumber
      {| newPage := Ok (Pages.close_fails [Examples.png]) |} Examples.home
  = (Throw Pages.crashed, full_trace Examples.home).
Proof.
  split.
  - apply (late_errors_propagate Examples.decimalToNumber
             {| newPage := Ok (Pages.evaluate_fails [Examples.png]) |}
             Examples.home (Pages.evaluate_fails [Examples.png]) Pages.crashed);
      reflexivity.
  - apply (late_errors_propagate Examples.decimalToNumber
             {| newPage := Ok (Pages.close_fails [Examples.png]) |}
             Examples.home (Pages.close_fails [Examples.png]) Pages.crashed);
      reflexivity.
Defined.

(** X3. When a call throws, [close] was called only if it is [close]
    itself that threw: after a failure of [newPage], [goto], [screenshot]
    or [evaluate] no [close] is ever issued. *)
Theorem thrown_call_closed_only_by_failed_close
        (StringToNumber : string -> JsNumber) (browser : Browser) (url_ : string)
        (e : JsError) (cs : list Call) :
  run StringToNumber browser url_ = (Throw e, cs) ->
  In CallClose cs ->
  exists page, newPage browser = Ok page /\ outcome (close page) = Throw e.
Proof.
  rewrite run_cases.
  destruct (newPage browser) as [page|e0] eqn:Hp.
  2:{ intros H Hin. inversion H; subst.
      destruct Hin as [Hc | []]; discriminate. }
  destruct (outcome (goto page url_)) as [[]|e0].
  2:{ intros H Hin. inversion H; subst.
      destruct Hin as [Hc | [Hc | []]]; discriminate. }
  destruct (outcome (screenshot page)) as [[]|e0].
  2:{ intros H Hin. inversion H; subst.
      destruct Hin as [Hc | [Hc | [Hc | []]]]; discriminate. }
  destruct (outcome (evaluate page)) as [[]|e0].
  2:{ intros H Hin. inversion H; subst.
      destruct Hin as [Hc | [Hc | [Hc | [Hc | []]]]]; discriminate. }
  destruct (outcome (close page)) as [[]|e0] eqn:Hclose; [discriminate|].
  intros H _. inversion H; subst. exists page. split; [reflexivity | exact Hclose].
Qed.

Lemma thrown_call_closed_only_by_failed_close_witness :
  exists page,
    newPage {| newPage := Ok (Pages.close_fails [Examples.png]) |} = Ok page /\
    outcome (close page) = Throw Pages.crashed.
Proof.
  apply (thrown_call_closed_only_by_failed_close Examples.decimalToNumber
           {| newPage := Ok (Pages.close_fails [Examples.png]) |}
           Examples.home Pages.crashed (full_trace Examples.home)).
  - reflexivity.
  - unfold full_trace. simpl. tauto.
Defined.

Lemma deliver_none (StringToNumber : string -> JsNumber)
      (rs : list HTTPResponse) (imgs : list ExtractImageData) :
  (forall r, In r rs -> isImage r = false) ->
  deliver StringToNumber rs imgs = imgs.
Proof.
  unfold deliver. revert imgs. induction rs as [|r rs IH]; intros imgs H; simpl.
  - reflexivity.
  - unfold on_response at 2. rewrite (H r (or_introl eq_refl)).
    apply IH. intros r' Hr'. apply H. right. exact Hr'.
Qed.

(** X4. A page on which every operation succeeds and no observed response
    qualifies yields the empty list, not an error. *)
Theorem no_image_response_gives_empty_list
        (StringToNumber : string -> JsNumber) (browser : Browser) (url_ : string)
        (page : Page) :
  newPage browser = Ok page ->
  outcome (goto page url_) = Ok tt ->
  outcome (screenshot page) = Ok tt ->
  outcome (evaluate page) = Ok tt ->
  outcome (close page) = Ok tt ->
  (forall r, In r (observed page url_) -> isImage r = false) ->
  run StringToNumber browser url_ = (Ok [], full_trace url_).
Proof.
  intros Hp Hg Hs He Hc Hnone.
  rewrite run_cases, Hp, Hg, Hs, He, Hc. unfold full_trace, discovered.
  unfold observed in Hnone.
  rewrite (deliver_none StringToNumber (arrivals (goto page url_)) []).
  2:{ intros r Hr. apply Hnone. rewrite in_app_iff. auto. }
  rewrite (deliver_none StringToNumber (arrivals (screenshot page)) []).
  2:{ intros r Hr. apply Hnone. rewrite !in_app_iff. auto. }
  unfold evaluate_images. simpl.
  rewrite (deliver_none StringToNumber (arrivals (close page)) []).
  2:{ intros r Hr. apply Hnone. rewrite !in_app_iff. auto. }
  reflexivity.
Qed.

Lemma no_image_response_gives_empty_list_witness :
  run Examples.decimalToNumber
      (Examples.browser_receiving [Pages.html; Pages.script] [0; 1])
      Examples.home
  = (Ok [], full_trace Examples.home).
Proof.
  apply (no_image_response_gives_empty_list Examples.decimalToNumber
           (Examples.browser_receiving [Pages.html; Pages.script] [0; 1])
           Examples.home
           (Examples.page_receiving [Pages.html; Pages.script] [0; 1]));
    try reflexivity.
  intros r [<- | [<- | []]]; reflexivity.
Defined.

(** ** What reaches the result *)

Lemma map_from_in {A B : Type} (f : nat -> A -> B) (l : list A) (i : nat) (x : A) :
  In x l -> exists j, In (f j x) (map_from f l i).
Proof.
  revert i. induction l as [|y t IH]; intros i; simpl; [tauto|].
  intros [-> | H].
  - exists i. left. reflexivity.
  - destruct (IH (S i) H) as (j & Hj). exists j. right. exact Hj.
Qed.

Lemma evaluate_images_in (decode : nat -> string -> option (Z * Z))
      (l : list ExtractImageData) (x : ExtractImageData) :
  In x l ->
  exists j, In (json_image (decode_image decode j (json_image x)))
               (evaluate_images decode l).
Proof.
  intros Hx. unfold evaluate_images.
  destruct (map_from_in (decode_image decode) (map json_image l) 0 (json_image x))
    as (j & Hj); [apply in_map; exact Hx|].
  exists j. apply in_map. exact Hj.
Qed.

Lemma evaluated_key (decode : nat -> string -> option (Z * Z)) (j : nat)
      (x : ExtractImageData) :
  key (json_image (decode_image decode j (json_image x))) = key x.
Proof.
  rewrite evaluate_one. destruct (decode j (src x)) as [[w h]|]; reflexivity.
Qed.

(** X5. No qualifying response observed while [goto], [screenshot] or
    [close] is awaited is lost: the returned list holds a record with its
    URL as [src] and the [mimeType] the handler resolved for it. *)
Theorem qualifying_responses_are_represented
        (StringToNumber : string -> JsNumber) (browser : Browser) (url_ : string)
        (result : list ExtractImageData) (cs : list Call)
        (page : Page) (r : HTTPResponse) :
  run StringToNumber browser url_ = (Ok result, cs) ->
  newPage browser = Ok page ->
  In r (observed page url_) ->
  isImage r = true ->
  exists rec, In rec result /\
              src rec = url r /\
              mimeType rec = mimeType (newImage StringToNumber r).
Proof.
  intros Hrun Hp Hr Hi.
  destruct (run_ok _ _ _ _ _ Hrun) as (page' & Hp' & ->).
  assert (page' = page) by congruence. subst page'.
  assert (Hd : exists x, In x (discovered StringToNumber page url_) /\
                         key x = key (newImage StringToNumber r)).
  { unfold observed in Hr. rewrite app_assoc in Hr.
    apply in_app_or in Hr. destruct Hr as [Hr | Hr].
    - assert (Hin : In (newImage StringToNumber r)
                       (deliver StringToNumber (arrivals (screenshot page))
                          (deliver StringToNumber (arrivals (goto page url_)) []))).
      { apply in_app_or in Hr. destruct Hr as [Hr | Hr].
        - apply in_deliver. left. apply in_deliver. right. exists r. auto.
        - apply in_deliver. right. exists r. auto. }
      destruct (evaluate_images_in (img_decode page) _ _ Hin) as (j & Hj).
      exists (json_image (decode_image (img_decode page) j
                            (json_image (newImage StringToNumber r)))).
      split; [|apply evaluated_key].
      unfold discovered. apply in_deliver. left. exact Hj.
    - exists (newImage StringToNumber r). split; [|reflexivity].
      unfold discovered. apply in_deliver. right. exists r. auto. }
  destruct Hd as (x & Hx & Hk).
  rewrite uniqueImages_keep_first.
  destruct (keep_first_complete [] _ x Hx) as [(rec & Hrec & Hkr) | (y & [] & _)].
  exists rec. split; [exact Hrec|].
  rewrite Hk in Hkr. unfold key in Hkr. injection Hkr as Hs Hm.
  split; [exact Hs | exact Hm].
Qed.

Lemma qualifying_responses_are_represented_witness :
  exists rec,
    In rec [newImage Examples.decimalToNumber Examples.png;
            json_image (newImage Examples.decimalToNumber Examples.gif_bare)] /\
    src rec = url Examples.gif_bare /\
    mimeType rec = mimeType (newImage Examples.decimalToNumber Examples.gif_bare).
Proof.
  apply (qualifying_responses_are_represented Examples.decimalToNumber
           (Examples.browser_receiving
              [Examples.png; Examples.gif_bare; Examples.png] [2])
           Examples.home
           [newImage Examples.decimalToNumber Examples.png;
            json_image (newImage Examples.decimalToNumber Examples.gif_bare)]
           (full_trace Examples.home)
           (Examples.page_receiving
              [Examples.png; Examples.gif_bare; Examples.png] [2])
           Examples.gif_bare).
  - vm_compute. reflexivity.
  - reflexivity.
  - right. left. reflexivity.
  - reflexivity.
Defined.

(** X6. A returned record with [decoded = true] carries the dimensions the
    page's image decoder reported for its [src]. *)
Theorem decoded_dimensions_come_from_the_page
        (StringToNumber : string -> JsNumber) (browser : Browser) (url_ : string)
        (result : list ExtractImageData) (cs : list Call)
        (rec : ExtractImageData) :
  run StringToNumber browser url_ = (Ok result, cs) ->
  In rec result ->
  decoded rec = true ->
  exists page i,
    newPage browser = Ok page /\
    img_decode page i (src rec) = Some (width rec, height rec).
Proof.
  intros Hrun Hin Hd.
  destruct (run_ok _ _ _ _ _ Hrun) as (page & Hp & ->).
  apply in_uniqueImages in Hin. exists page.
  unfold discovered in Hin. apply in_deliver in Hin.
  destruct Hin as [Hin | (r & _ & _ & ->)]; [|discriminate].
  apply in_evaluate_images in Hin. destruct Hin as (j & x & Hx & ->).
  exists j. split; [exact Hp|].
  assert (Hfresh : decoded x = false).
  { apply in_deliver in Hx. destruct Hx as [Hx | (r & _ & _ & ->)]; [|reflexivity].
    apply in_deliver in Hx. destruct Hx as [[] | (r & _ & _ & ->)]. reflexivity. }
  rewrite evaluate_one in *.
  destruct (img_decode page j (src x)) as [[w h]|] eqn:E;
    [simpl; exact E | simpl in Hd; congruence].
Qed.

Lemma decoded_dimensions_come_from_the_page_witness :
  let browser := Examples.browser_receiving
                   [Examples.png; Examples.gif_bare] [1] in
  let rec := measured (json_image (newImage Examples.decimalToNumber Examples.gif_bare)) 4 3 in
  exists page i,
    newPage browser = Ok page /\
    img_decode page i (src rec) = Some (width rec, height rec).
Proof.
  intros browser rec.
  apply (decoded_dimensions_come_from_the_page Examples.decimalToNumber
           browser Examples.home
           [newImage Examples.decimalToNumber Examples.png; rec]
           (full_trace Examples.home) rec).
  - vm_compute. reflexivity.
  - right. left. reflexivity.
  - reflexivity.
Defined.

(** X7. Responses that arrive while [evaluate] is awaited never reach the
    result: they are pushed onto the array that the assignment of the
    evaluation's result replaces. Whatever arrives then, the call's outcome
    and calls are the same. *)
Theorem arrivals_during_evaluate_are_dropped
        (StringToNumber : string -> JsNumber) (page : Page)
        (rs : list HTTPResponse) (url_ : string) :
  run StringToNumber {| newPage := Ok (Pages.with_evaluate_arrivals page rs) |} url_
  = run StringToNumber {| newPage := Ok page |} url_.
Proof.
  rewrite !run_cases. simpl. unfold discovered. simpl. reflexivity.
Qed.

Lemma deliver_extends (StringToNumber : string -> JsNumber)
      (rs : list HTTPResponse) (imgs : list ExtractImageData) :
  exists tail, deliver StringToNumber rs imgs = imgs ++ tail.
Proof.
  unfold deliver. revert imgs. induction rs as [|r rs IH]; intros imgs; simpl.
  - exists []. rewrite app_nil_r. reflexivity.
  - destruct (IH (on_response StringToNumber r imgs)) as (tail & ->).
    unfold on_response. destruct (isImage r).
    + exists ([newImage StringToNumber r] ++ tail).
      rewrite <- app_assoc. reflexivity.
    + exists tail. reflexivity.
Qed.

Lemma deliver_app (StringToNumber : string -> JsNumber)
      (rs rs' : list HTTPResponse) (imgs : list ExtractImageData) :
  deliver StringToNumber (rs ++ rs') imgs
  = deliver StringToNumber rs' (deliver StringToNumber rs imgs).
Proof. unfold deliver. apply fold_left_app. Qed.

(** A list has one first record of a key. *)
Lemma first_of_key_unique (l1 l2 base tail : list ExtractImageData)
      (rec x : ExtractImageData) :
  l1 ++ rec :: l2 = base ++ x :: tail ->
  key rec = key x ->
  (forall y, In y l1 -> key y <> key rec) ->
  (forall y, In y base -> key y <> key x) ->
  rec = x.
Proof.
  revert base. induction l1 as [|a l1 IH]; intros base Heq Hk H1 H2.
  - destruct base as [|b base]; simpl in Heq; inversion Heq; subst.
    + reflexivity.
    + exfalso. apply (H2 b); [left; reflexivity | exact Hk].
  - destruct base as [|b base]; simpl in Heq; inversion Heq; subst.
    + exfalso. apply (H1 x); [left; reflexivity | symmetry; exact Hk].
    + apply (IH base); auto.
      * intros y Hy. apply H1. right. exact Hy.
      * intros y Hy. apply H2. right. exact Hy.
Qed.

(** X8. Responses that arrive while [close] is awaited do reach the
    result, undecoded: a qualifying one whose ([src], [mimeType]) pair was
    not collected before is returned as the handler built it, with zero
    dimensions and [decoded = false]. *)
Theorem arrivals_during_close_are_kept_undecoded
        (StringToNumber : string -> JsNumber) (browser : Browser) (url_ : string)
        (result : list ExtractImageData) (cs : list Call)
        (page : Page) (before after : list HTTPResponse) (r : HTTPResponse) :
  run StringToNumber browser url_ = (Ok result, cs) ->
  newPage browser = Ok page ->
  arrivals (close page) = before ++ r :: after ->
  isImage r = true ->
  (forall r', In r' (arrivals (goto page url_) ++ arrivals (screenshot page) ++ before) ->
              isImage r' = true ->
              key (newImage StringToNumber r') <> key (newImage StringToNumber r)) ->
  In (newImage StringToNumber r) result /\
  decoded (newImage StringToNumber r) = false.
Proof.
  intros Hrun Hp Hclose Hi Hnew. split; [|reflexivity].
  destruct (run_ok _ _ _ _ _ Hrun) as (page' & Hp' & ->).
  assert (page' = page) by congruence. subst page'.
  set (base := deliver StringToNumber before
                 (evaluate_images (img_decode page)
                    (deliver StringToNumber (arrivals (screenshot page))
                       (deliver StringToNumber (arrivals (goto page url_)) [])))).
  assert (Hsplit : exists tail,
             discovered StringToNumber page url_
             = base ++ newImage StringToNumber r :: tail).
  { unfold discovered. rewrite Hclose, deliver_app. fold base.
    change (deliver StringToNumber (r :: after) base)
      with (deliver StringToNumber after (on_response StringToNumber r base)).
    unfold on_response. rewrite Hi.
    destruct (deliver_extends StringToNumber after
                (base ++ [newImage StringToNumber r])) as (tail & ->).
    exists tail. rewrite <- app_assoc. reflexivity. }
  destruct Hsplit as (tail & Hsplit).
  assert (Hbase : forall y, In y base -> key y <> key (newImage StringToNumber r)).
  { intros y Hy. unfold base in Hy. apply in_deliver in Hy.
    destruct Hy as [Hy | (r' & Hr' & Hi' & ->)].
    - apply in_evaluate_images in Hy. destruct Hy as (j & x & Hx & ->).
      rewrite evaluated_key.
      apply in_deliver in Hx. destruct Hx as [Hx | (r' & Hr' & Hi' & ->)].
      + apply in_deliver in Hx. destruct Hx as [[] | (r' & Hr' & Hi' & ->)].
        apply Hnew; [rewrite !in_app_iff; auto | exact Hi'].
      + apply Hnew; [rewrite !in_app_iff; auto | exact Hi'].
    - apply Hnew; [rewrite !in_app_iff; auto | exact Hi']. }
  rewrite uniqueImages_keep_first.
  assert (Hin : In (newImage StringToNumber r) (discovered StringToNumber page url_)).
  { rewrite Hsplit. apply in_or_app. right. left. reflexivity. }
  destruct (keep_first_complete [] _ _ Hin) as [(rec & Hrec & Hk) | (y & [] & _)].
  destruct (keep_first_first _ _ _ Hrec) as (l1 & l2 & Heq & Hfirst).
  simpl in Hfirst. rewrite Hsplit in Heq.
  rewrite <- (first_of_key_unique l1 l2 base tail rec
                (newImage StringToNumber r) (eq_sym Heq) Hk Hfirst Hbase).
  exact Hrec.
Qed.

Lemma arrivals_during_close_are_kept_undecoded_witness :
  let page := {| goto := fun _ => Examples.during [Examples.png];
                 screenshot := Examples.quiet;
                 evaluate := Examples.quiet;
                 img_decode := fun _ _ => Some (4, 3)%Z;
                 close := Examples.during [Pages.html; Pages.late_jpeg] |} in
  In (newImage Examples.decimalToNumber Pages.late_jpeg)
     [measured (newImage Examples.decimalToNumber Examples.png) 4 3;
      newImage Examples.decimalToNumber Pages.late_jpeg] /\
  decoded (newImage Examples.decimalToNumber Pages.late_jpeg) = false.
Proof.
  intros page.
  apply (arrivals_during_close_are_kept_undecoded Examples.decimalToNumber
           {| newPage := Ok page |} Examples.home
           [measured (newImage Examples.decimalToNumber Examples.png) 4 3;
            newImage Examples.decimalToNumber Pages.late_jpeg]
           (full_trace Examples.home) page [Pages.html] [] Pages.late_jpeg).
  - vm_compute. reflexivity.
  - reflexivity.
  - reflexivity.
  - reflexivity.
  - intros r' [<- | [<- | []]] Hq; [|discriminate Hq].
    vm_compute. discriminate.
Defined.

(** ** The filter on lists that need none *)

Lemma keep_first_fixed (seen l : list ExtractImageData) :
  NoDup (map key l) ->
  (forall x y, In x l -> In y seen -> key y <> key x) ->
  keep_first seen l = l.
Proof.
  revert seen. induction l as [|x t IH]; intros seen Hnd Hseen; simpl; [reflexivity|].
  simpl in Hnd. inversion Hnd as [|k ks Hnotin Hnd']; subst.
  assert (E : existsb (same_key x) seen = false).
  { apply existsb_same_key_false. intros y Hy. apply (Hseen x y); [left; reflexivity | exact Hy]. }
  rewrite E. f_equal. apply IH; [exact Hnd'|].
  intros z y Hz Hy. apply in_app_or in Hy. destruct Hy as [Hy | [<- | []]].
  - apply (Hseen z y); [right; exact Hz | exact Hy].
  - intros Hk. apply Hnotin. rewrite Hk. apply in_map. exact Hz.
Qed.

(** X9. On a list whose ([src], [mimeType]) pairs are pairwise distinct
    the filter changes nothing, and filtering twice is filtering once. *)
Theorem uniqueImages_fixed_and_idempotent (l : list ExtractImageData) :
  (NoDup (map key l) -> uniqueImages l = l) /\
  uniqueImages (uniqueImages l) = uniqueImages l.
Proof.
  assert (H : forall l', NoDup (map key l') -> uniqueImages l' = l').
  { intros l' Hnd. rewrite uniqueImages_keep_first.
    apply keep_first_fixed; [exact Hnd | intros x y _ []]. }
  split; [apply H|].
  apply H. rewrite uniqueImages_keep_first. apply keep_first_NoDup.
Qed.

Lemma uniqueImages_fixed_and_idempotent_witness :
  uniqueImages [newImage Examples.decimalToNumber Examples.png;
                newImage Examples.decimalToNumber Examples.gif_bare]
  = [newImage Examples.decimalToNumber Examples.png;
     newImage Examples.decimalToNumber Examples.gif_bare].
Proof.
  apply (proj1 (uniqueImages_fixed_and_idempotent
                  [newImage Examples.decimalToNumber Examples.png;
                   newImage Examples.decimalToNumber Examples.gif_bare])).
  vm_compute. constructor.
  - intros [H | []]. discriminate H.
  - constructor; [intros [] | constructor].
Defined.

(** ** The extension table *)

Lemma substring_skip_more (p e : string) (k m : nat) :
  String.substring (String.length p + k) m (p ++ e)%string = String.substring k m e.
Proof. induction p as [|c p IH]; simpl; [reflexivity | exact IH]. Qed.

(** Of two endings of one string, the shorter is an ending of the
    longer. *)
Lemma endsWith_comparable (s e e' : string) :
  Str.endsWith s e = true -> Str.endsWith s e' = true ->
  String.length e' <= String.length e ->
  Str.endsWith e e' = true.
Proof.
  intros H H' Hle. apply StrFacts.endsWith_iff in H. destruct H as [p ->].
  unfold Str.endsWith in *. rewrite StrFacts.length_app in H'.
  apply andb_true_iff in H'. destruct H' as [_ H'].
  replace (String.length p + String.length e - String.length e')
    with (String.length p + (String.length e - String.length e')) in H' by lia.
  rewrite substring_skip_more in H'. rewrite H', andb_true_r.
  apply Nat.leb_le. exact Hle.
Qed.

Ltac endings_clash H1 H2 :=
  let C := fresh "C" in
  first [ pose proof (endsWith_comparable _ _ _ H1 H2 ltac:(simpl; lia)) as C
        | pose proof (endsWith_comparable _ _ _ H2 H1 ltac:(simpl; lia)) as C ];
  vm_compute in C; discriminate C.

Ltac other_endings_false L ext He :=
  repeat match goal with
         | |- context [Str.endsWith L ?e'] =>
             tryif constr_eq e' ext then fail
             else
               let E := fresh "E" in
               destruct (Str.endsWith L e') eqn:E;
               [exfalso; endings_clash He E|]
         end.

(** X10. [getMimeTypeFromUrl] answers [m] exactly when the lower-cased URL
    ends with an extension that the table maps to [m]: no URL ends with two
    of the extensions, so the order of the tests decides nothing. *)
Theorem getMimeTypeFromUrl_table (u m : string) :
  getMimeTypeFromUrl u = Some m <->
  exists ext, In (ext, m) mime_table /\
              Str.endsWith (Str.toLowerCase u) ext = true.
Proof.
  unfold getMimeTypeFromUrl, mime_table.
  set (L := Str.toLowerCase u). split.
  - destruct (Str.endsWith L ".jpg") eqn:E1.
    { intros H. inversion H. exists ".jpg". simpl. auto. }
    destruct (Str.endsWith L ".jpeg") eqn:E2.
    { intros H. inversion H. exists ".jpeg". simpl. auto. }
    destruct (Str.endsWith L ".png") eqn:E3.
    { intros H. inversion H. exists ".png". simpl. auto. }
    destruct (Str.endsWith L ".gif") eqn:E4.
    { intros H. inversion H. exists ".gif". simpl. auto 6. }
    destruct (Str.endsWith L ".webp") eqn:E5.
    { intros H. inversion H. exists ".webp". simpl. auto 7. }
    destruct (Str.endsWith L ".bmp") eqn:E6.
    { intros H. inversion H. exists ".bmp". simpl. auto 8. }
    destruct (Str.endsWith L ".ico") eqn:E7.
    { intros H. inversion H. exists ".ico". simpl. auto 9. }
    destruct (Str.endsWith L ".svg") eqn:E8.
    { intros H. inversion H. exists ".svg". simpl. auto 10. }
    discriminate.
  - intros (ext & Hin & He). simpl in Hin.
    repeat (destruct Hin as [Hin | Hin];
            [inversion Hin; subst ext m; clear Hin;
             match type of He with
             | Str.endsWith L ?e = true => other_endings_false L e He
             end;
             rewrite He; reflexivity |]).
    destruct Hin.
Qed.

Lemma getMimeTypeFromUrl_never_unknown (u : string) :
  getMimeTypeFromUrl u <> Some "image/unknown".
Proof.
  unfold getMimeTypeFromUrl.
  repeat match goal with
         | |- context [if ?b then _ else _] => destruct b
         end;
    discriminate.
Qed.

(** X11. The literal ["image/unknown"] is never reached: the [mimeType]
    of a created record is the non-empty content-type header or the type
    inferred from the URL, so a record says ["image/unknown"] only when the
    response's own content-type header does. *)
Theorem fallback_mime_type_is_unreachable
        (StringToNumber : string -> JsNumber) (r : HTTPResponse) :
  isImage r = true ->
  ((header (headers r) "content-type" = Some (mimeType (newImage StringToNumber r)) /\
    mimeType (newImage StringToNumber r) <> "") \/
   getMimeTypeFromUrl (url r) = Some (mimeType (newImage StringToNumber r))) /\
  (mimeType (newImage StringToNumber r) = "image/unknown" ->
   header (headers r) "content-type" = Some "image/unknown").
Proof.
  intros Hi.
  assert (Hmain :
    (header (headers r) "content-type" = Some (mimeType (newImage StringToNumber r)) /\
     mimeType (newImage StringToNumber r) <> "") \/
    getMimeTypeFromUrl (url r) = Some (mimeType (newImage StringToNumber r))).
  { unfold isImage in Hi. unfold newImage. simpl.
    assert (Hinfer : isImageUrl (url r) = true ->
              exists m, getMimeTypeFromUrl (url r) = Some m /\ Str.truthy m = true).
    { intros Hu. apply isImageUrl_getMimeTypeFromUrl in Hu.
      destruct (getMimeTypeFromUrl (url r)) as [m|] eqn:Em; [|congruence].
      exists m. split; [reflexivity|].
      apply (getMimeTypeFromUrl_truthy (url r)). exact Em. }
    destruct (header (headers r) "content-type") as [c|]; simpl.
    - destruct (Str.truthy c) eqn:Et; simpl.
      + rewrite Et. left. split; [reflexivity|]. apply StrFacts.truthy_iff. exact Et.
      + assert (c = "").
        { unfold Str.truthy in Et. apply negb_false_iff in Et.
          apply String.eqb_eq. exact Et. }
        subst c. simpl in Hi.
        destruct (Hinfer Hi) as (m & Hm & Ht). rewrite Hm. simpl. rewrite Ht.
        right. reflexivity.
    - destruct (Hinfer Hi) as (m & Hm & Ht). rewrite Hm. simpl. rewrite Ht.
      right. reflexivity. }
  split; [exact Hmain|].
  intros Hunk. rewrite Hunk in Hmain. destruct Hmain as [[H _] | H]; [exact H|].
  exfalso. exact (getMimeTypeFromUrl_never_unknown _ H).
Qed.

Lemma fallback_mime_type_is_unreachable_witness :
  ((header (headers Examples.gif_empty_type) "content-type"
    = Some (mimeType (newImage Examples.decimalToNumber Examples.gif_empty_type)) /\
    mimeType (newImage Examples.decimalToNumber Examples.gif_empty_type) <> "") \/
   getMimeTypeFromUrl (url Examples.gif_empty_type)
   = Some (mimeType (newImage Examples.decimalToNumber Examples.gif_empty_type))) /\
  (mimeType (newImage Examples.decimalToNumber Examples.gif_empty_type)
   = "image/unknown" ->
   header (headers Examples.gif_empty_type) "content-type" = Some "image/unknown").
Proof.
  apply (fallback_mime_type_is_unreachable Examples.decimalToNumber
           Examples.gif_empty_type).
  reflexivity.
Defined.

(** ** The order of the fallbacks *)

(** Without a [BROWSER] binding only the direct connection is left. *)
Lemma getBrowser_without_binding {World : Type} (puppeteer : Provider World)
      (wsEndpoint : option string) (st : Acquisition World) :
  getBrowser puppeteer None wsEndpoint st = direct_connect puppeteer wsEndpoint st.
Proof.
  unfold getBrowser, direct_connect, bind, try_catch, remote, ret,
    console_log, console_error, modify.
  simpl. destruct wsEndpoint as [ws|]; [|reflexivity].
  destruct (Str.truthy ws); [|reflexivity]. simpl.
  destruct (connect_endpoint puppeteer ws (world st)) as [[b|e] w]; simpl.
  - reflexivity.
  - rewrite <- app_assoc. reflexivity.
Qed.

(** What [getBrowser] does with a [BROWSER] binding, by the outcome of
    each step in turn. *)
Lemma getBrowser_cases {World : Type} (puppeteer : Provider World)
      (B : BrowserWorker) (wsEndpoint : option string) (st : Acquisition World) :
  getBrowser puppeteer (Some B) wsEndpoint st =
  match sessions puppeteer B (world st) with
  | (Throw e, w) => (Throw e, {| world := w; console := console st |})
  | (Ok listed, w1) =>
      match connect_each puppeteer "Connecting to existing session: " B
                         (idle_ids listed)
                         {| world := w1; console := console st |} with
      | (Throw e, s1) => (Throw e, s1)
      | (Ok (Some b), s1) => (Ok (Some b), s1)
      | (Ok None, s1) =>
          match limits puppeteer B (world s1) with
          | (Throw e, w2) => (Throw e, {| world := w2; console := console s1 |})
          | (Ok limitsResp, w2) =>
              match connect_each puppeteer "Connecting to active session: " B
                                 (active_ids limitsResp)
                                 {| world := w2; console := console s1 |} with
              | (Throw e, s2) => (Throw e, s2)
              | (Ok (Some b), s2) => (Ok (Some b), s2)
              | (Ok None, s2) =>
                  match launch puppeteer B 600000 (world s2) with
                  | (Ok b, w3) =>
                      (Ok (Some b),
                       {| world := w3;
                          console := console s2 ++
                            [ConsoleLog ["Launching new browser"]] |})
                  | (Throw e, w3) =>
                      direct_connect puppeteer wsEndpoint
                        {| world := w3;
                           console := console s2 ++
                             [ConsoleLog ["Launching new browser"];
                              ConsoleError e] |}
                  end
              end
          end
      end
  end.
Proof.
  unfold getBrowser, idle_ids, active_ids.
  unfold bind, remote, ret. simpl.
  destruct (sessions puppeteer B (world st)) as [[listed|e] w1]; [|reflexivity].
  destruct (connect_each puppeteer "Connecting to existing session: " B _ _)
    as [[[b|]|e] s1]; [reflexivity | | reflexivity].
  destruct (limits puppeteer B (world s1)) as [[limitsResp|e] w2]; [|reflexivity].
  destruct (connect_each puppeteer "Connecting to active session: " B _ _)
    as [[[b|]|e] s2]; [reflexivity | | reflexivity].
  unfold try_catch, console_log, console_error, modify, bind, remote, ret.
  simpl.
  destruct (launch puppeteer B 600000 (world s2)) as [[b|e] w3]; simpl;
    [reflexivity|].
  unfold direct_connect. simpl.
  destruct wsEndpoint as [ws|]; [|rewrite <- app_assoc; reflexivity].
  destruct (Str.truthy ws); [|rewrite <- app_assoc; reflexivity]. simpl.
  destruct (connect_endpoint puppeteer ws w3) as [[b|e'] w4]; simpl;
    rewrite <- !app_assoc; reflexivity.
Qed.

(** The attach loop over ids that all fail, followed by more ids: the
    failures are logged, two entries each, and the loop goes on. *)
Lemma connect_each_after_failures {World : Type} (puppeteer : Provider World)
      (msg : string) (B : BrowserWorker) (failed rest : list string)
      (st : Acquisition World) (w : World) :
  fail_in_turn puppeteer B failed (world st) = Some w ->
  exists log,
    length log = 2 * length failed /\
    connect_each puppeteer msg B (failed ++ rest) st
    = connect_each puppeteer msg B rest
        {| world := w; console := console st ++ log |}.
Proof.
  revert st. induction failed as [|i failed IH]; intros st H.
  - simpl in H. inversion H; subst. exists []. split; [reflexivity|].
    rewrite app_nil_r. destruct st. reflexivity.
  - simpl in H.
    destruct (connect puppeteer B i (world st)) as [[b|e] w'] eqn:E; [discriminate|].
    change ((i :: failed) ++ rest) with (i :: (failed ++ rest)).
    rewrite (connect_each_skip World puppeteer msg B i (failed ++ rest) st e w' E).
    destruct (IH {| world := w';
                    console := console st ++
                      [ConsoleLog [msg; i]; ConsoleError e] |} H)
      as (log & Hlen & ->).
    exists ([ConsoleLog [msg; i]; ConsoleError e] ++ log). split.
    + rewrite length_app. simpl. simpl in Hlen. lia.
    + simpl. rewrite <- app_assoc. reflexivity.
Qed.

Lemma connect_each_all_fail {World : Type} (puppeteer : Provider World)
      (msg : string) (B : BrowserWorker) (ids : list string)
      (st : Acquisition World) (w : World) :
  fail_in_turn puppeteer B ids (world st) = Some w ->
  exists log,
    length log = 2 * length ids /\
    connect_each puppeteer msg B ids st
    = (Ok None, {| world := w; console := console st ++ log |}).
Proof.
  intros H.
  destruct (connect_each_after_failures puppeteer msg B ids [] st w H)
    as (log & Hlen & Heq).
  rewrite app_nil_r in Heq. exists log. split; [exact Hlen | exact Heq].
Qed.

Lemma connect_each_first_success {World : Type} (puppeteer : Provider World)
      (msg : string) (B : BrowserWorker) (failed : list string) (i : string)
      (rest : list string) (st : Acquisition World) (w w' : World) (b : Browser) :
  fail_in_turn puppeteer B failed (world st) = Some w ->
  connect puppeteer B i w = (Ok b, w') ->
  exists log,
    length log = 2 * length failed + 1 /\
    connect_each puppeteer msg B (failed ++ i :: rest) st
    = (Ok (Some b), {| world := w'; console := console st ++ log |}).
Proof.
  intros Hf Hc.
  destruct (connect_each_after_failures puppeteer msg B failed (i :: rest) st w Hf)
    as (log & Hlen & ->).
  rewrite (connect_each_hit World puppeteer msg B i rest
             {| world := w; console := console st ++ log |} b w' Hc).
  exists (log ++ [ConsoleLog [msg; i]]). split.
  - rewrite length_app. simpl. lia.
  - simpl. rewrite <- app_assoc. reflexivity.
Qed.

Lemma getBrowser_pool_exhausted {World : Type} (puppeteer : Provider World)
      (B : BrowserWorker) (wsEndpoint : option string)
      (st : Acquisition World) (w' : World) :
  pool_exhausted puppeteer B (world st) w' ->
  exists log,
    getBrowser puppeteer (Some B) wsEndpoint st
    = direct_connect puppeteer wsEndpoint
        {| world := w'; console := console st ++ log |}.
Proof.
  intros (listed & w1 & w2 & limitsResp & w3 & w4 & e & Hs & Hi & Hl & Ha & Hn).
  rewrite getBrowser_cases, Hs.
  destruct (connect_each_all_fail puppeteer "Connecting to existing session: " B
              (idle_ids listed) {| world := w1; console := console st |} w2 Hi)
    as (log1 & _ & ->).
  simpl. rewrite Hl.
  destruct (connect_each_all_fail puppeteer "Connecting to active session: " B
              (active_ids limitsResp)
              {| world := w3; console := console st ++ log1 |} w4 Ha)
    as (log2 & _ & ->).
  simpl. rewrite Hn.
  exists (log1 ++ log2 ++ [ConsoleLog ["Launching new browser"]; ConsoleError e]).
  rewrite <- !app_assoc. reflexivity.
Qed.

(** X12. With neither a [BROWSER] binding nor a usable endpoint (absent,
    or the empty string) [getBrowser] returns [undefined] and leaves the
    provider's state and the console as they were. *)
Theorem getBrowser_without_sources {World : Type} (puppeteer : Provider World)
        (st : Acquisition World) :
  getBrowser puppeteer None None st = (Ok None, st) /\
  getBrowser puppeteer None (Some "") st = (Ok None, st).
Proof. rewrite !getBrowser_without_binding. split; reflexivity. Qed.

(** X13. With an endpoint and no [BROWSER] binding the result is the
    direct connection's: its handle when it succeeds, and [undefined], with
    the error logged, when it throws. *)
Theorem direct_endpoint_without_binding {World : Type}
        (puppeteer : Provider World) (ws : string) (st : Acquisition World) :
  ws <> "" ->
  (forall b w,
     connect_endpoint puppeteer ws (world st) = (Ok b, w) ->
     getBrowser puppeteer None (Some ws) st
     = (Ok (Some b),
        {| world := w;
           console := console st ++
             [ConsoleLog ["Connecting to browser using wsEndpoint: "; ws]] |})) /\
  (forall e w,
     connect_endpoint puppeteer ws (world st) = (Throw e, w) ->
     getBrowser puppeteer None (Some ws) st
     = (Ok None,
        {| world := w;
           console := console st ++
             [ConsoleLog ["Connecting to browser using wsEndpoint: "; ws];
              ConsoleError e] |})).
Proof.
  intros Hne. apply StrFacts.truthy_iff in Hne.
  rewrite getBrowser_without_binding. unfold direct_connect. rewrite Hne.
  split; intros x w ->; reflexivity.
Qed.

Lemma direct_endpoint_without_binding_witness :
  getBrowser (Providers.exhausted true) None (Some Providers.endpoint)
             Providers.start
  = (Ok (Some Providers.handle),
     {| world := 1;
        console := [ConsoleLog ["Connecting to browser using wsEndpoint: ";
                                Providers.endpoint]] |}) /\
  getBrowser (Providers.exhausted false) None (Some Providers.endpoint)
             Providers.start
  = (Ok None,
     {| world := 1;
        console := [ConsoleLog ["Connecting to browser using wsEndpoint: ";
                                Providers.endpoint];
                    ConsoleError Providers.refused] |}).
Proof.
  split.
  - apply (proj1 (direct_endpoint_without_binding (Providers.exhausted true)
                    Providers.endpoint Providers.start ltac:(discriminate))).
    reflexivity.
  - apply (proj2 (direct_endpoint_without_binding (Providers.exhausted false)
                    Providers.endpoint Providers.start ltac:(discriminate))).
    reflexivity.
Defined.

(** The attach loop over ids that all fail, followed by more ids, with the
    console written out. *)
Lemma connect_each_after_failures_log {World : Type} (puppeteer : Provider World)
      (msg : string) (B : BrowserWorker) (failed rest : list string)
      (st : Acquisition World) (w : World) :
  fail_in_turn puppeteer B failed (world st) = Some w ->
  connect_each puppeteer msg B (failed ++ rest) st
  = connect_each puppeteer msg B rest
      {| world := w;
         console := console st ++
           failed_attach_log puppeteer msg B failed (world st) |}.
Proof.
  revert st. induction failed as [|i failed IH]; intros st H.
  - simpl in H. inversion H; subst. simpl.
    rewrite app_nil_r. destruct st. reflexivity.
  - simpl in H. simpl failed_attach_log.
    destruct (connect puppeteer B i (world st)) as [[b|e] w'] eqn:E; [discriminate|].
    change ((i :: failed) ++ rest) with (i :: (failed ++ rest)).
    rewrite (connect_each_skip World puppeteer msg B i (failed ++ rest) st e w' E).
    rewrite (IH {| world := w';
                   console := console st ++
                     [ConsoleLog [msg; i]; ConsoleError e] |} H).
    simpl. rewrite <- app_assoc. reflexivity.
Qed.

Lemma failed_attach_log_length {World : Type} (puppeteer : Provider World)
      (msg : string) (B : BrowserWorker) (ids : list string) (w w' : World) :
  fail_in_turn puppeteer B ids w = Some w' ->
  length (failed_attach_log puppeteer msg B ids w) = 2 * length ids.
Proof.
  revert w. induction ids as [|i rest IH]; intros w H; simpl in *.
  - reflexivity.
  - destruct (connect puppeteer B i w) as [[b|e] w1]; [discriminate|].
    simpl. rewrite (IH w1 H). lia.
Qed.

(** Each failed id leaves its attempt and, after it, an error. *)
Lemma failed_attach_log_attempts {World : Type} (puppeteer : Provider World)
      (msg : string) (B : BrowserWorker) (ids : list string) (w w' : World) :
  fail_in_turn puppeteer B ids w = Some w' ->
  filter (fun entry => match entry with ConsoleLog _ => true | _ => false end)
         (failed_attach_log puppeteer msg B ids w)
  = map (fun i => ConsoleLog [msg; i]) ids.
Proof.
  revert w. induction ids as [|i rest IH]; intros w H; simpl in *.
  - reflexivity.
  - destruct (connect puppeteer B i w) as [[b|e] w1]; [discriminate|].
    simpl. rewrite (IH w1 H). reflexivity.
Qed.

(** X14. Idle sessions are tried in listed order and the first that
    attaches wins: when attaching throws for every idle session before
    [i] and succeeds for [i], [getBrowser] returns the handle of [i] and
    leaves the provider in the state right after that attach; the console
    has gained, for each failed id in turn, the attempt and the error it
    threw, and then the attempt on [i], and nothing else. *)
Theorem first_attaching_idle_session_wins {World : Type}
        (puppeteer : Provider World) (B : BrowserWorker)
        (wsEndpoint : option string) (st : Acquisition World)
        (listed : list SessionInfo) (failed : list string) (i : string)
        (rest : list string) (b : Browser) (w1 w2 w3 : World) :
  sessions puppeteer B (world st) = (Ok listed, w1) ->
  idle_ids listed = failed ++ i :: rest ->
  fail_in_turn puppeteer B failed w1 = Some w2 ->
  connect puppeteer B i w2 = (Ok b, w3) ->
  let log := failed_attach_log puppeteer "Connecting to existing session: "
                               B failed w1 in
  getBrowser puppeteer (Some B) wsEndpoint st
  = (Ok (Some b),
     {| world := w3;
        console := console st ++ log ++
          [ConsoleLog ["Connecting to existing session: "; i]] |}) /\
  length log = 2 * length failed /\
  filter (fun entry => match entry with ConsoleLog _ => true | _ => false end) log
  = map (fun f => ConsoleLog ["Connecting to existing session: "; f]) failed.
Proof.
  intros Hs Hids Hf Hc log. split; [|split].
  - rewrite getBrowser_cases, Hs, Hids.
    rewrite (connect_each_after_failures_log puppeteer
               "Connecting to existing session: " B failed (i :: rest)
               {| world := w1; console := console st |} w2 Hf).
    cbn [world console].
    rewrite (connect_each_hit World puppeteer
               "Connecting to existing session: " B i rest
               {| world := w2;
                  console := console st ++
                    failed_attach_log puppeteer
                      "Connecting to existing session: " B failed w1 |}
               b w3 Hc).
    simpl. rewrite <- app_assoc. reflexivity.
  - apply (failed_attach_log_length puppeteer _ B failed w1 w2 Hf).
  - apply (failed_attach_log_attempts puppeteer _ B failed w1 w2 Hf).
Qed.

Lemma first_attaching_idle_session_wins_witness :
  let log := [ConsoleLog ["Connecting to existing session: "; "a"];
              ConsoleError (AcquireExamples.stale "a");
              ConsoleLog ["Connecting to existing session: "; "b"];
              ConsoleError (AcquireExamples.stale "b")] in
  getBrowser AcquireExamples.pool (Some AcquireExamples.BROWSER)
             (Some Providers.endpoint) AcquireExamples.start
  = (Ok (Some AcquireExamples.handle),
     {| world := 4;
        console := console AcquireExamples.start ++ log ++
          [ConsoleLog ["Connecting to existing session: "; "c"]] |}) /\
  length log = 2 * length ["a"; "b"] /\
  filter (fun entry => match entry with ConsoleLog _ => true | _ => false end) log
  = map (fun f => ConsoleLog ["Connecting to existing session: "; f]) ["a"; "b"].
Proof.
  apply (first_attaching_idle_session_wins AcquireExamples.pool
           AcquireExamples.BROWSER (Some Providers.endpoint)
           AcquireExamples.start
           [mkSession "a" None; mkSession "busy" (Some "conn-1");
            mkSession "b" (Some ""); mkSession "c" None]
           ["a"; "b"] "c" [] AcquireExamples.handle 1 3 4); reflexivity.
Defined.

(** X15. Active sessions are tried only after every idle one has failed,
    in listed order, the first that attaches winning. *)
Theorem active_sessions_tried_after_idle {World : Type}
        (puppeteer : Provider World) (B : BrowserWorker)
        (wsEndpoint : option string) (st : Acquisition World)
        (listed : list SessionInfo) (limitsResp : LimitsResponse)
        (failed : list string) (i : string) (rest : list string)
        (b : Browser) (w1 w2 w3 w4 w5 : World) :
  sessions puppeteer B (world st) = (Ok listed, w1) ->
  fail_in_turn puppeteer B (idle_ids listed) w1 = Some w2 ->
  limits puppeteer B w2 = (Ok limitsResp, w3) ->
  active_ids limitsResp = failed ++ i :: rest ->
  fail_in_turn puppeteer B failed w3 = Some w4 ->
  connect puppeteer B i w4 = (Ok b, w5) ->
  exists log,
    length log = 2 * length (idle_ids listed) + 2 * length failed + 1 /\
    getBrowser puppeteer (Some B) wsEndpoint st
    = (Ok (Some b), {| world := w5; console := console st ++ log |}).
Proof.
  intros Hs Hi Hl Hids Hf Hc. rewrite getBrowser_cases, Hs.
  destruct (connect_each_all_fail puppeteer "Connecting to existing session: " B
              (idle_ids listed) {| world := w1; console := console st |} w2 Hi)
    as (log1 & Hlen1 & ->).
  simpl. rewrite Hl, Hids.
  destruct (connect_each_first_success puppeteer
              "Connecting to active session: " B failed i rest
              {| world := w3; console := console st ++ log1 |} w4 w5 b Hf Hc)
    as (log2 & Hlen2 & ->).
  exists (log1 ++ log2). split.
  - rewrite length_app. lia.
  - simpl. rewrite <- app_assoc. reflexivity.
Qed.

Lemma active_sessions_tried_after_idle_witness :
  exists log,
    length log = 2 * length (idle_ids [mkSession "a" None;
                                       mkSession "busy" (Some "conn-1")])
                 + 2 * length ["gone"] + 1 /\
    getBrowser Providers.busy_only (Some Providers.BROWSER) None Providers.start
    = (Ok (Some Providers.handle),
       {| world := 5; console := console Providers.start ++ log |}).
Proof.
  apply (active_sessions_tried_after_idle Providers.busy_only Providers.BROWSER
           None Providers.start
           [mkSession "a" None; mkSession "busy" (Some "conn-1")]
           (mkLimits [mkActive "gone"; mkActive "busy"])
           ["gone"] "busy" [] Providers.handle 1 2 3 4 5); reflexivity.
Defined.



(** X17. The endpoint is the last resort with a binding too: when the pool
    gives no handle and the direct connection succeeds, its handle is
    returned. *)
Theorem direct_endpoint_after_pool {World : Type}
        (puppeteer : Provider World) (B : BrowserWorker) (ws : string)
        (st : Acquisition World) (b : Browser) (w w' : World) :
  pool_exhausted puppeteer B (world st) w ->
  ws <> "" ->
  connect_endpoint puppeteer ws w = (Ok b, w') ->
  exists log,
    getBrowser puppeteer (Some B) (Some ws) st
    = (Ok (Some b), {| world := w'; console := console st ++ log |}).
Proof.
  intros Hpool Hne Hc. apply StrFacts.truthy_iff in Hne.
  destruct (getBrowser_pool_exhausted puppeteer B (Some ws) st w Hpool)
    as (log & ->).
  unfold direct_connect. simpl. rewrite Hne, Hc.
  exists (log ++ [ConsoleLog ["Connecting to browser using wsEndpoint: "; ws]]).
  rewrite <- app_assoc. reflexivity.
Qed.

Lemma pool_exhausted_example (direct : bool) :
  pool_exhausted (Providers.exhausted direct) Providers.BROWSER
                 (world Providers.start) 5.
Proof.
  exists [mkSession "a" None; mkSession "busy" (Some "conn-1")], 1, 2,
         (mkLimits [mkActive "busy"]), 3, 4, Providers.quota.
  repeat split.
Defined.

Lemma direct_endpoint_after_pool_witness :
  exists log,
    getBrowser (Providers.exhausted true) (Some Providers.BROWSER)
               (Some Providers.endpoint) Providers.start
    = (Ok (Some Providers.handle),
       {| world := 6; console := console Providers.start ++ log |}).
Proof.
  apply (direct_endpoint_after_pool (Providers.exhausted true) Providers.BROWSER
           Providers.endpoint Providers.start Providers.handle 5 6).
  - apply pool_exhausted_example.
  - discriminate.
  - reflexivity.
Defined.

(** X18. Exhaustion is absence, not an error: when the pool gives no
    handle and the endpoint is absent, empty, or refuses the connection,
    [getBrowser] returns [undefined]. *)
Theorem exhaustion_returns_undefined {World : Type}
        (puppeteer : Provider World) (B : BrowserWorker)
        (wsEndpoint : option string) (st : Acquisition World) (w : World) :
  pool_exhausted puppeteer B (world st) w ->
  (wsEndpoint = None \/ wsEndpoint = Some "" \/
   exists ws e w', wsEndpoint = Some ws /\
                   connect_endpoint puppeteer ws w = (Throw e, w')) ->
  exists st', getBrowser puppeteer (Some B) wsEndpoint st = (Ok None, st').
Proof.
  intros Hpool Hws.
  destruct (getBrowser_pool_exhausted puppeteer B wsEndpoint st w Hpool)
    as (log & ->).
  unfold direct_connect.
  destruct Hws as [-> | [-> | (ws & e & w' & -> & Hc)]].
  - eexists. reflexivity.
  - eexists. reflexivity.
  - destruct (Str.truthy ws); [|eexists; reflexivity].
    simpl. rewrite Hc. eexists. reflexivity.
Qed.

Lemma exhaustion_returns_undefined_witness :
  exists st',
    getBrowser (Providers.exhausted false) (Some Providers.BROWSER)
               (Some Providers.endpoint) Providers.start
    = (Ok None, st').
Proof.
  apply (exhaustion_returns_undefined (Providers.exhausted false)
           Providers.BROWSER (Some Providers.endpoint) Providers.start 5).
  - apply pool_exhausted_example.
  - right. right. exists Providers.endpoint, Providers.refused, 6.
    split; reflexivity.
Defined.

(** X19. The limits query is not guarded: when every idle session fails
    to attach and [puppeteer.limits] throws, [getBrowser] throws that error,
    in the state right after the limits call; the console holds, for each
    idle id in turn, the attempt and the error it threw, and nothing
    else. *)
Theorem limits_failure_is_thrown {World : Type}
        (puppeteer : Provider World) (B : BrowserWorker)
        (wsEndpoint : option string) (st : Acquisition World)
        (listed : list SessionInfo) (e : JsError) (w1 w2 w3 : World) :
  sessions puppeteer B (world st) = (Ok listed, w1) ->
  fail_in_turn puppeteer B (idle_ids listed) w1 = Some w2 ->
  limits puppeteer B w2 = (Throw e, w3) ->
  let log := failed_attach_log puppeteer "Connecting to existing session: "
                               B (idle_ids listed) w1 in
  getBrowser puppeteer (Some B) wsEndpoint st
  = (Throw e, {| world := w3; console := console st ++ log |}) /\
  length log = 2 * length (idle_ids listed) /\
  filter (fun entry => match entry with ConsoleLog _ => true | _ => false end) log
  = map (fun f => ConsoleLog ["Connecting to existing session: "; f])
        (idle_ids listed).
Proof.
  intros Hs Hi Hl log. split; [|split].
  - rewrite getBrowser_cases, Hs.
    pose proof (connect_each_after_failures_log puppeteer
                  "Connecting to existing session: " B (idle_ids listed) []
                  {| world := w1; console := console st |} w2 Hi) as Hloop.
    rewrite app_nil_r in Hloop. rewrite Hloop. simpl. rewrite Hl. reflexivity.
  - apply (failed_attach_log_length puppeteer _ B (idle_ids listed) w1 w2 Hi).
  - apply (failed_attach_log_attempts puppeteer _ B (idle_ids listed) w1 w2 Hi).
Qed.

Lemma limits_failure_is_thrown_witness :
  let log := [ConsoleLog ["Connecting to existing session: "; "a"];
              ConsoleError Providers.refused] in
  getBrowser Providers.limits_down (Some Providers.BROWSER)
             (Some Providers.endpoint) Providers.start
  = (Throw Providers.quota,
     {| world := 3; console := console Providers.start ++ log |}) /\
  length log = 2 * length (idle_ids [mkSession "a" None]) /\
  filter (fun entry => match entry with ConsoleLog _ => true | _ => false end) log
  = map (fun f => ConsoleLog ["Connecting to existing session: "; f])
        (idle_ids [mkSession "a" None]).
Proof.
  apply (limits_failure_is_thrown Providers.limits_down Providers.BROWSER
           (Some Providers.endpoint) Providers.start [mkSession "a" None]
           Providers.quota 1 2 3); reflexivity.
Defined.

Lemma direct_connect_returns {World : Type} (puppeteer : Provider World)
      (wsEndpoint : option string) (st : Acquisition World) :
  exists r st', direct_connect puppeteer wsEndpoint st = (Ok r, st').
Proof.
  unfold direct_connect. destruct wsEndpoint as [ws|]; [|eauto].
  destruct (Str.truthy ws); [|eauto].
  destruct (connect_endpoint puppeteer ws (world st)) as [[b|e] w]; eauto.
Qed.

(** X20. The only errors [getBrowser] can throw are those of the two
    listing calls: when it throws [e] there is a [BROWSER] binding, and
    [puppeteer.sessions] or [puppeteer.limits] threw [e]. *)
Theorem getBrowser_throws_only_from_listings {World : Type}
        (puppeteer : Provider World) (BROWSER : option BrowserWorker)
        (wsEndpoint : option string) (st st' : Acquisition World) (e : JsError) :
  getBrowser puppeteer BROWSER wsEndpoint st = (Throw e, st') ->
  exists B w,
    BROWSER = Some B /\
    (sessions puppeteer B w = (Throw e, world st') \/
     limits puppeteer B w = (Throw e, world st')).
Proof.
  destruct BROWSER as [B|].
  2:{ rewrite getBrowser_without_binding. intros H.
      destruct (direct_connect_returns puppeteer wsEndpoint st) as (r & s & Hr).
      congruence. }
  rewrite getBrowser_cases.
  destruct (sessions puppeteer B (world st)) as [[listed|e0] w1] eqn:Hs.
  2:{ intros H. inversion H; subst. exists B, (world st). split; [reflexivity|].
      left. exact Hs. }
  destruct (connect_each_returns World puppeteer
              "Connecting to existing session: " B (idle_ids listed)
              {| world := w1; console := console st |}) as (r1 & s1 & ->).
  destruct r1 as [b|]; [discriminate|].
  destruct (limits puppeteer B (world s1)) as [[limitsResp|e0] w2] eqn:Hl.
  2:{ intros H. inversion H; subst. exists B, (world s1). split; [reflexivity|].
      right. exact Hl. }
  destruct (connect_each_returns World puppeteer
              "Connecting to active session: " B (active_ids limitsResp)
              {| world := w2; console := console s1 |}) as (r2 & s2 & ->).
  destruct r2 as [b|]; [discriminate|].
  destruct (launch puppeteer B 600000 (world s2)) as [[b|e0] w3]; [discriminate|].
  intros H.
  destruct (direct_connect_returns puppeteer wsEndpoint
              {| world := w3;
                 console := console s2 ++
                   [ConsoleLog ["Launching new browser"]; ConsoleError e0] |})
    as (r & s & Hr).
  congruence.
Qed.

Lemma getBrowser_throws_only_from_listings_witness :
  exists B w,
    Some Providers.BROWSER = Some B /\
    (sessions Providers.limits_down B w = (Throw Providers.quota, 3) \/
     limits Providers.limits_down B w = (Throw Providers.quota, 3)).
Proof.
  apply (getBrowser_throws_only_from_listings Providers.limits_down
           (Some Providers.BROWSER) (Some Providers.endpoint) Providers.start
           {| world := 3;
              console := [ConsoleLog ["Connecting to existing session: "; "a"];
                          ConsoleError Providers.refused] |}
           Providers.quota).
  reflexivity.
Defined.

Lemma getBrowser_returns_when_listings_return_witness :
  returns (getBrowser AcquireExamples.pool (Some AcquireExamples.BROWSER)
                      (Some Providers.endpoint)).
Proof.
  apply (getBrowser_returns_when_listings_return nat AcquireExamples.pool
           (Some AcquireExamples.BROWSER) (Some Providers.endpoint)).
  - intros B w. eexists _, _. reflexivity.
  - intros B w. eexists _, _. reflexivity.
Defined.

(** X22. A handle obtained from the pool is never traded for the
    endpoint: when [getBrowser] returns a handle without an endpoint, it
    returns the same handle, in the same state, with any endpoint. *)
Theorem pool_handle_ignores_endpoint {World : Type}
        (puppeteer : Provider World) (B : BrowserWorker)
        (st st' : Acquisition World) (b : Browser) (wsEndpoint : option string) :
  getBrowser puppeteer (Some B) None st = (Ok (Some b), st') ->
  getBrowser puppeteer (Some B) wsEndpoint st = (Ok (Some b), st').
Proof.
  rewrite !getBrowser_cases.
  destruct (sessions puppeteer B (world st)) as [[listed|e0] w1]; [|discriminate].
  destruct (connect_each puppeteer "Connecting to existing session: " B
              (idle_ids listed) {| world := w1; console := console st |})
    as [[[b1|]|e1] s1]; [auto | | discriminate].
  destruct (limits puppeteer B (world s1)) as [[limitsResp|e0] w2]; [|discriminate].
  destruct (connect_each puppeteer "Connecting to active session: " B
              (active_ids limitsResp) {| world := w2; console := console s1 |})
    as [[[b2|]|e2] s2]; [auto | | discriminate].
  destruct (launch puppeteer B 600000 (world s2)) as [[b3|e3] w3]; [auto|].
  unfold direct_connect at 1. discriminate.
Qed.

Lemma pool_handle_ignores_endpoint_witness :
  getBrowser Providers.fresh (Some Providers.BROWSER)
             (Some Providers.endpoint) Providers.start
  = (Ok (Some Providers.handle),
     {| world := 3; console := [ConsoleLog ["Launching new browser"]] |}).
Proof.
  apply (pool_handle_ignores_endpoint Providers.fresh Providers.BROWSER
           Providers.start
           {| world := 3; console := [ConsoleLog ["Launching new browser"]] |}
           Providers.handle (Some Providers.endpoint)).
  reflexivity.
Defined.

(** X23. The two hard-coded extension lists agree: [IMAGE_EXTENSIONS] is
    the list of extensions [getMimeTypeFromUrl] tests, in the same order,
    so a URL passes [isImageUrl] exactly when a type is inferred for it. *)
Theorem extension_lists_agree (u : string) :
  IMAGE_EXTENSIONS = map fst mime_table /\
  (isImageUrl u = true <-> exists m, getMimeTypeFromUrl u = Some m).
Proof.
  split; [reflexivity|].
  rewrite isImageUrl_getMimeTypeFromUrl.
  destruct (getMimeTypeFromUrl u) as [m|]; split.
  - intros _. exists m. reflexivity.
  - intros _. discriminate.
  - intros H. exfalso. apply H. reflexivity.
  - intros (m & H). discriminate H.
Qed.
